(** * gym-bridge: the card-play engine of [BridgeEnv] and
    [BridgeSimultaneousActionsEnv], embedded in Rocq.

    Sources: src/gym_bridge/utils/card_list.py (class [CardList]),
    src/gym_bridge/envs/bridge_env.py (class [BridgeEnv]) and
    src/gym_bridge/envs/bridge_simultaneous_actions_env.py
    (class [BridgeSimultaneousActionsEnv]).

    Modelling choices.
    - A card is a Python int, here a [Z]; [card % 4] is [Z.modulo], which
      agrees with Python's [%] for the divisor 4.
    - A [CardList] is a [list Z], in the order the Python list has.
    - The seats ['N', 'E', 'S', 'W'] are the inductive [player]; the
      dicts keyed by the four seats ([hands], [table], [won_tricks], the
      inner dicts of [played_tricks]) are total functions on [player];
      [played_tricks] is keyed by the ints 0..12, an access outside that
      range raises [KeyError].  [rewards] is a dict whose key order is
      observable in the result of [step]; it is an association list with
      Python's dict update.
    - Python exceptions are the type [exn].  Methods that update [self]
      run in a state monad whose failures keep the state reached so far,
      as a Python exception keeps every mutation made before it.
    - [random.choice(seq)] is [seq[k]] for a random [k < len(seq)]; the
      index is an explicit argument [r] and [choice] picks
      [r mod len(seq)], or raises [IndexError] on an empty sequence. *)

From Stdlib Require Import String ZArith List Lia Bool Permutation Sorted.
Import ListNotations.
Open Scope Z_scope.

(** ** Exceptions and the error monad *)

Inductive exn :=
| KeyError
| IndexError
| ValueError
| AssertionError
| TypeError
| Exception_.

Definition res (A : Type) : Type := (exn + A)%type.

Definition rbind {A B} (m : res A) (k : A -> res B) : res B :=
  match m with
  | inl x => inl x
  | inr a => k a
  end.

Notation "x <-? m ;; k" := (rbind m (fun x => k))
  (at level 61, m at next level, right associativity).

(** A list comprehension [[f(x) for x in l]]: evaluated left to right, the
    first exception propagates. *)
Fixpoint mapR {A B} (f : A -> res B) (l : list A) : res (list B) :=
  match l with
  | [] => inr []
  | x :: r => y <-? f x ;; ys <-? mapR f r ;; inr (y :: ys)
  end.

(** ** Seats *)

Inductive player := PN | PE | PS | PW.

Definition player_eq_dec (p q : player) : {p = q} + {p <> q}.
Proof. decide equality. Defined.

Definition player_eqb (p q : player) : bool :=
  if player_eq_dec p q then true else false.

(** [self.players = ['N', 'E', 'S', 'W']] *)
Definition players : list player := [PN; PE; PS; PW].

Definition player_name (p : player) : string :=
  match p with PN => "N" | PE => "E" | PS => "S" | PW => "W" end.

(** [self.players.index(player)] *)
Definition player_index (p : player) : nat :=
  match p with PN => 0 | PE => 1 | PS => 2 | PW => 3 end%nat.

(** [_get_next_player]: [self.players[(self.players.index(player) + 1) % 4]] *)
Definition get_next_player (p : player) : player :=
  match p with PN => PE | PE => PS | PS => PW | PW => PN end.

Definition partner (p : player) : player := get_next_player (get_next_player p).

(** Python dict assignment [d[k] = v] on a dict keyed by seats. *)
Definition upd {A} (f : player -> A) (k : player) (v : A) : player -> A :=
  fun q => if player_eqb q k then v else f q.

(** ** [CardList] *)

Definition suit (card : Z) : Z := card mod 4.
Definition rank (card : Z) : Z := card / 4.

(** [CardList.one_card_power(current_suit, trump)]:
    {v
        assert len(self) == 1
        card = self[0]
        if trump is not None and card % 4 == trump:
            card += 200
        elif card % 4 == current_suit:
            card += 100
        return card
    v}
    [current_suit] is any int or [None]; a comparison with [None] is
    [False]. *)
Definition one_card_power (cl : list Z) (current_suit : option Z) (trump : option Z)
  : res Z :=
  match cl with
  | [card] =>
      match trump with
      | Some t => if card mod 4 =? t then inr (card + 200)
                  else match current_suit with
                       | Some cs => if card mod 4 =? cs then inr (card + 100) else inr card
                       | None => inr card
                       end
      | None => match current_suit with
                | Some cs => if card mod 4 =? cs then inr (card + 100) else inr card
                | None => inr card
                end
      end
  | _ => inl AssertionError
  end.

(** [np.argmax]: index of the first maximal element; [ValueError] on an
    empty sequence. *)
Fixpoint argmax_go (l : list Z) (i bi : nat) (bv : Z) : nat :=
  match l with
  | [] => bi
  | x :: r => if bv <? x then argmax_go r (S i) (S i) x else argmax_go r (S i) bi bv
  end.

Definition np_argmax (l : list Z) : res nat :=
  match l with
  | [] => inl ValueError
  | x :: r => inr (argmax_go r 0 0 x)
  end.

(** [self.players[i]] *)
Definition index_players (i : nat) : res player :=
  match nth_error players i with
  | Some p => inr p
  | None => inl IndexError
  end.

(** [list.remove(x)]: drops the first element equal to [x], [ValueError]
    when there is none. *)
Fixpoint list_remove (l : list Z) (x : Z) : res (list Z) :=
  match l with
  | [] => inl ValueError
  | y :: r => if y =? x then inr r else (r' <-? list_remove r x ;; inr (y :: r'))
  end.

(** [list.pop()]: removes and returns the last element. *)
Definition list_pop (l : list Z) : res (list Z * Z) :=
  match rev l with
  | [] => inl IndexError
  | x :: r => inr (rev r, x)
  end.

(** Values a caller passes as an action: an int ("integer" action mode),
    a list of ints (a one-hot vector, "multi_binary" action mode), or
    [None]. *)
Inductive action :=
| ActInt (z : Z)
| ActList (l : list Z)
| ActNone.

(** [CardList.remove_card(card)]; returns the new list and the removed
    card.
    {v
        if card is None:            card = self.pop()
        elif isinstance(card, int): self.remove(card)
        elif isinstance(card, list):
            card = self.convert_multi_binary_to_integer(card)
            self.remove(card)
        return card
    v} *)
Definition remove_card (cl : list Z) (card : action) : res (list Z * Z) :=
  match card with
  | ActNone => list_pop cl
  | ActInt c => cl' <-? list_remove cl c ;; inr (cl', c)
  | ActList l => i <-? np_argmax l ;; let c := Z.of_nat i in
                 cl' <-? list_remove cl c ;; inr (cl', c)
  end.

(** [CardList.get_suit_cards(suit)] *)
Definition get_suit_cards (cl : list Z) (s : Z) : res (list Z) :=
  if (0 <=? s) && (s <=? 3) then inr (filter (fun x => x mod 4 =? s) cl)
  else inl AssertionError.

(** [CardList.get_cards_multi_binary()]:
    [[1 if card in self else 0 for card in range(52)]] *)
Definition get_cards_multi_binary (cl : list Z) : list Z :=
  map (fun card => if existsb (Z.eqb card) cl then 1 else 0)
      (map Z.of_nat (seq 0 52)).

(** [lst[i] = v] with Python's index rules (negative indices count from
    the end, [IndexError] outside). *)
Definition list_setitem (l : list Z) (i v : Z) : res (list Z) :=
  let n := Z.of_nat (length l) in
  let j := if i <? 0 then i + n else i in
  if (0 <=? j) && (j <? n)
  then inr (firstn (Z.to_nat j) l ++ v :: skipn (S (Z.to_nat j)) l)
  else inl IndexError.

(** [valid_action = [0] * 52; valid_action[card] = 1] *)
Definition one_hot (card : Z) : res (list Z) :=
  list_setitem (repeat 0 52) card 1.

(** What [get_available_actions] returns: a list of ints, a list of
    one-hot lists, or [None]. *)
Inductive avail :=
| AvInts (l : list Z)
| AvLists (l : list (list Z))
| AvNone.

Fixpoint list_Z_eqb (a b : list Z) : bool :=
  match a, b with
  | [], [] => true
  | x :: a', y :: b' => (x =? y) && list_Z_eqb a' b'
  | _, _ => false
  end.

(** Python's [x in seq]; [x in None] raises [TypeError]. *)
Definition py_in (x : action) (v : avail) : res bool :=
  match v with
  | AvNone => inl TypeError
  | AvInts l => match x with
                | ActInt z => inr (existsb (Z.eqb z) l)
                | _ => inr false
                end
  | AvLists ls => match x with
                  | ActList l => inr (existsb (list_Z_eqb l) ls)
                  | _ => inr false
                  end
  end.

(** [random.choice(seq)] at the random index [r mod len(seq)]. *)
Definition choice (v : avail) (r : nat) : res action :=
  match v with
  | AvNone => inl TypeError
  | AvInts [] => inl IndexError
  | AvInts l => inr (ActInt (nth (r mod length l) l 0))
  | AvLists [] => inl IndexError
  | AvLists ls => inr (ActList (nth (r mod length ls) ls []))
  end.

(** ** Dicts keyed by seats with an observable key order ([rewards]) *)

Definition rdict := list (player * Z).

Fixpoint dset (d : rdict) (k : player) (v : Z) : rdict :=
  match d with
  | [] => [(k, v)]
  | (k', v') :: r => if player_eqb k' k then (k', v) :: r else (k', v') :: dset r k v
  end.

Fixpoint dget (d : rdict) (k : player) : res Z :=
  match d with
  | [] => inl KeyError
  | (k', v') :: r => if player_eqb k' k then inr v' else dget r k
  end.

(** [self.rewards = {'N': 0, 'E': 0, 'S': 0, 'W': 0}] in [__init__]. *)
Definition initial_rewards : rdict := [(PN, 0); (PE, 0); (PS, 0); (PW, 0)].

(** ** Configuration and environment state *)

Inductive amode := AMInteger | AMMultiBinary.
Inductive omode := OMInteger | OMMultiBinary | OMMixed.
(** [reward_mode] is not checked by [__init__]: any other string is
    [ROther]; [_get_rewards] raises on it. *)
Inductive rmode := RWin | RWinTricks | RWinPoints | RPlayCards | ROther (s : string).

Record Cfg := mkCfg {
  action_space_mode : amode;
  observation_space_mode : omode;
  reward_mode : rmode }.

(** [self.players_roles] as set by [_set_players_roles(declarer)]. *)
Record roles := mkRoles {
  declarer : player;
  defender_1 : player;
  dummy : player;
  defender_2 : player }.

Definition set_players_roles_of (d : player) : roles :=
  mkRoles d (get_next_player d) (get_next_player (get_next_player d))
          (get_next_player (get_next_player (get_next_player d))).

(** The attributes of the environment object after a [reset]:
    [self.state] (active player, hands, table, played tricks, won tricks,
    current suit), [self.trump], [self.contract_value],
    [self.players_roles], [self.n_cards_on_table], [self.tricks_played]
    and [self.rewards]. *)
Record Env := mkEnv {
  active_player : player;
  hands : player -> list Z;
  table : player -> list Z;
  played_tricks : Z -> player -> list Z;
  won_tricks : player -> Z;
  current_suit : option Z;
  trump : option Z;
  contract_value : Z;
  players_roles : roles;
  n_cards_on_table : Z;
  tricks_played : Z;
  rewards : rdict }.

Definition set_active (p : player) (e : Env) : Env :=
  mkEnv p (hands e) (table e) (played_tricks e) (won_tricks e) (current_suit e)
        (trump e) (contract_value e) (players_roles e) (n_cards_on_table e)
        (tricks_played e) (rewards e).
Definition set_hands (h : player -> list Z) (e : Env) : Env :=
  mkEnv (active_player e) h (table e) (played_tricks e) (won_tricks e) (current_suit e)
        (trump e) (contract_value e) (players_roles e) (n_cards_on_table e)
        (tricks_played e) (rewards e).
Definition set_table (t : player -> list Z) (e : Env) : Env :=
  mkEnv (active_player e) (hands e) t (played_tricks e) (won_tricks e) (current_suit e)
        (trump e) (contract_value e) (players_roles e) (n_cards_on_table e)
        (tricks_played e) (rewards e).
Definition set_played (pt : Z -> player -> list Z) (e : Env) : Env :=
  mkEnv (active_player e) (hands e) (table e) pt (won_tricks e) (current_suit e)
        (trump e) (contract_value e) (players_roles e) (n_cards_on_table e)
        (tricks_played e) (rewards e).
Definition set_won (w : player -> Z) (e : Env) : Env :=
  mkEnv (active_player e) (hands e) (table e) (played_tricks e) w (current_suit e)
        (trump e) (contract_value e) (players_roles e) (n_cards_on_table e)
        (tricks_played e) (rewards e).
Definition set_current_suit (cs : option Z) (e : Env) : Env :=
  mkEnv (active_player e) (hands e) (table e) (played_tricks e) (won_tricks e) cs
        (trump e) (contract_value e) (players_roles e) (n_cards_on_table e)
        (tricks_played e) (rewards e).
Definition set_n_cards (n : Z) (e : Env) : Env :=
  mkEnv (active_player e) (hands e) (table e) (played_tricks e) (won_tricks e)
        (current_suit e) (trump e) (contract_value e) (players_roles e) n
        (tricks_played e) (rewards e).
Definition set_tricks_played (t : Z) (e : Env) : Env :=
  mkEnv (active_player e) (hands e) (table e) (played_tricks e) (won_tricks e)
        (current_suit e) (trump e) (contract_value e) (players_roles e)
        (n_cards_on_table e) t (rewards e).
Definition set_rewards (r : rdict) (e : Env) : Env :=
  mkEnv (active_player e) (hands e) (table e) (played_tricks e) (won_tricks e)
        (current_suit e) (trump e) (contract_value e) (players_roles e)
        (n_cards_on_table e) (tricks_played e) r.

(** ** The state monad with Python exceptions *)

Definition M (A : Type) : Type := Env -> Env * res A.

Definition mret {A} (a : A) : M A := fun e => (e, inr a).
Definition mbind {A B} (m : M A) (k : A -> M B) : M B :=
  fun e => match m e with
           | (e', inl x) => (e', inl x)
           | (e', inr a) => k a e'
           end.
Definition lift {A} (r : res A) : M A := fun e => (e, r).
Definition mget : M Env := fun e => (e, inr e).
Definition modify (f : Env -> Env) : M unit := fun e => (f e, inr tt).

Notation "x <- m ;; k" := (mbind m (fun x => k))
  (at level 61, m at next level, right associativity).

Notation "m >>> k" := (mbind m (fun _ => k)) (at level 61, right associativity).

(** ** Legal actions *)

(** The legal cards of [player] in [get_available_actions]:
    {v
        if self.state['current_suit'] is None:
            available_actions = self.state['hands'].get(player, CardList())
        else:
            available_actions = self.state['hands'].get(player, CardList()).get_suit_cards(
                self.state.get('current_suit'))
            if len(available_actions) < 1:
                available_actions = self.state['hands'].get(player, CardList())
    v} *)
Definition legal_cards (e : Env) (p : player) : res (list Z) :=
  match current_suit e with
  | None => inr (hands e p)
  | Some cs =>
      sc <-? get_suit_cards (hands e p) cs ;;
      if (List.length sc <? 1)%nat then inr (hands e p) else inr sc
  end.

(** The encoding step of [get_available_actions]: in "multi_binary" mode
    every card becomes a one-hot list of length 52. *)
Definition encode_avail (m : amode) (l : list Z) : res avail :=
  match m with
  | AMInteger => inr (AvInts l)
  | AMMultiBinary => ls <-? mapR one_hot l ;; inr (AvLists ls)
  end.

(** [BridgeEnv.get_available_actions(player)] *)
Definition get_available_actions (cfg : Cfg) (e : Env) (p : player) : res avail :=
  l <-? legal_cards e p ;; encode_avail (action_space_mode cfg) l.

(** [BridgeSimultaneousActionsEnv.get_available_actions(player)]: as above
    for the active player; for any other player
    {v
            available_actions = CardList().add_cards(-1)
            if self.action_space_mode == 'multi_binary':
                available_actions = [].append([0] * 52)
    v}
    and [[].append(...)] evaluates to [None]. *)
Definition get_available_actions_sim (cfg : Cfg) (e : Env) (p : player) : res avail :=
  if player_eqb p (active_player e) then get_available_actions cfg e p
  else match action_space_mode cfg with
       | AMInteger => inr (AvInts [-1])
       | AMMultiBinary => inr AvNone
       end.

(** ** Trick resolution *)

(** [_get_trick_winner] (the same in both environments):
    {v
        assert self.n_cards_on_table == 4, "Every player has to play a card."
        trick_winner = self.players[np.argmax([card.one_card_power(self.state['current_suit'], self.trump)
                                               for card in self.state['table'].values()])]
    v} *)
Definition get_trick_winner (e : Env) : res player :=
  if negb (n_cards_on_table e =? 4) then inl AssertionError
  else pw <-? mapR (fun p => one_card_power (table e p) (current_suit e) (trump e)) players ;;
       i <-? np_argmax pw ;;
       index_players i.

(** One iteration of [_clear_table]:
    [self.state['played_tricks'][self.tricks_played][player].add_cards(
       self.state['table'][player].remove_card())];
    the key [self.tricks_played] is looked up before the card is popped. *)
Definition clear_one (p : player) : M unit :=
  e <- mget ;;
  let t := tricks_played e in
  if (0 <=? t) && (t <? 13) then
    pc <- lift (list_pop (table e p)) ;;
    let (tl', c) := pc in
    modify (fun e' =>
      set_played (fun i q => if (i =? t) && player_eqb q p
                             then played_tricks e' i q ++ [c]
                             else played_tricks e' i q)
                 (set_table (upd (table e') p tl') e'))
  else lift (inl KeyError).

Fixpoint clear_go (ps : list player) : M unit :=
  match ps with
  | [] => mret tt
  | p :: r => clear_one p >>> clear_go r
  end.

(** [_clear_table] *)
Definition clear_table : M unit :=
  clear_go players >>>
  modify (set_n_cards 0) >>>
  modify (set_current_suit None).

(** ** Rewards of [BridgeEnv] *)

(** The lookahead of [BridgeEnv._get_rewards]:
    {v
        next_trick_winner = self.players[
            np.argmax([card.one_card_power(self.state['hands'][trick_winner][0], self.trump)
                       for card in self.state['hands'].values()])]
    v}
    [self.state['hands'][None]] raises [KeyError]. *)
Definition lookahead (e : Env) (tw : option player) : res player :=
  w <-? (match tw with None => inl KeyError | Some w => inr w end) ;;
  first <-? (match hands e w with [] => inl IndexError | c :: _ => inr c end) ;;
  pw <-? mapR (fun q => one_card_power (hands e q) (Some first) (trump e)) players ;;
  i <-? np_argmax pw ;;
  index_players i.

(** The contract outcome: declarer and dummy 1 and the defenders 0 when
    [won_tricks[declarer] + bonus >= contract_value + 6], else the reverse. *)
Definition contract_rewards (e : Env) (rw : rdict) (bonus : Z) : rdict :=
  let ro := players_roles e in
  if contract_value e + 6 <=? won_tricks e (declarer ro) + bonus
  then dset (dset (dset (dset rw (declarer ro) 1) (dummy ro) 1) (defender_1 ro) 0)
            (defender_2 ro) 0
  else dset (dset (dset (dset rw (declarer ro) 0) (dummy ro) 0) (defender_1 ro) 1)
            (defender_2 ro) 1.

(** The four assignments of "win_tricks" for a trick won by [w]. *)
Definition trick_rewards (rw : rdict) (w : player) : rdict :=
  dset (dset (dset (dset rw w 1) (get_next_player w) 0) (partner w) 1)
       (get_next_player (partner w)) 0.

(** [BridgeEnv._get_rewards(trick_winner, chosen_card_is_valid)]; it
    starts from [deepcopy(self.rewards)].  In the lookahead,
    [self.players_roles.get('player')] is [None] (there is no such role),
    so [next_trick_winner in (None, dummy)] tests [next_trick_winner == dummy]. *)
Definition get_rewards (cfg : Cfg) (e : Env) (tw : option player) (valid : bool)
  : res rdict :=
  let rw := rewards e in
  base <-? match reward_mode cfg with
    | RWin | RWinPoints =>
        if tricks_played e =? 12 then
          ntw <-? lookahead e tw ;;
          let pwin := if player_eqb ntw (dummy (players_roles e)) then 1 else 0 in
          inr (contract_rewards e rw pwin)
        else inr rw
    | RWinTricks =>
        match tw with
        | Some w =>
            let r1 := trick_rewards rw w in
            if tricks_played e =? 12 then
              ntw <-? lookahead e tw ;;
              a <-? dget r1 ntw ;;
              let r2 := dset r1 ntw (a + 1) in
              b <-? dget r2 (partner ntw) ;;
              inr (dset r2 (partner ntw) (b + 1))
            else inr r1
        | None => inr rw
        end
    | RPlayCards => if valid then inr (dset rw (active_player e) 1) else inr rw
    | ROther _ => inl Exception_
    end ;;
  if valid then inr base
  else inr (dset base (active_player e)
                 (match reward_mode cfg with RWinPoints => -1000 | _ => -2 end)).

(** ** Rewards of [BridgeSimultaneousActionsEnv] *)

(** [chosen_cards_are_valid], a dict from seats to bools. *)
Definition vdict := list (player * bool).

Fixpoint vget (d : vdict) (p : player) : bool :=
  match d with
  | [] => false
  | (q, b) :: r => if player_eqb q p then b else vget r p
  end.

(** [BridgeSimultaneousActionsEnv._get_rewards(trick_winner,
    chosen_cards_are_valid)] *)
Definition get_rewards_sim (cfg : Cfg) (e : Env) (tw : option player) (valid : vdict)
  : res rdict :=
  let rw := rewards e in
  base <-? match reward_mode cfg with
    | RWin | RWinPoints =>
        if tricks_played e =? 13 then inr (contract_rewards e rw 0) else inr rw
    | RWinTricks =>
        match tw with Some w => inr (trick_rewards rw w) | None => inr rw end
    | RPlayCards =>
        inr (fold_left (fun (r : rdict) (pv : player * bool) =>
                      if snd pv then dset r (fst pv) 0 else r) valid rw)
    | ROther _ => inl Exception_
    end ;;
  inr (fold_left (fun (r : rdict) (pv : player * bool) =>
              if snd pv then r else dset r (fst pv) (-1000)) valid base).

(** ** The game controllers *)

(** [card = hand.remove_card(...)] has already produced the new hand;
    {v
        self.state['table'][self.state['active_player']].add_cards(card)
        self.n_cards_on_table += 1
    v} *)
Definition play_card (p : player) (hand' : list Z) (card : Z) : M unit :=
  modify (fun e => set_hands (upd (hands e) p hand') e) >>>
  modify (fun e => set_table (upd (table e) p (table e p ++ [card])) e) >>>
  modify (fun e => set_n_cards (n_cards_on_table e + 1) e).

(** The second half of [_game_controller], shared by both environments;
    returns the trick winner (or [None]) and the next player.
    {v
        if self.n_cards_on_table < 4:
            next_player = self._get_next_player(self.state['active_player'])
            if self.state['current_suit'] is None:
                self.state['current_suit'] = card % 4
        else:
            trick_winner = self._get_trick_winner()
            next_player = trick_winner
            self._clear_table()
            self.tricks_played += 1
            self.state['won_tricks'][trick_winner] += 1
            self.state['won_tricks'][self._get_next_player(self._get_next_player(trick_winner))] += 1
    v} *)
Definition advance (card : Z) : M (option player * player) :=
  e <- mget ;;
  if n_cards_on_table e <? 4 then
    (match current_suit e with
     | None => modify (set_current_suit (Some (card mod 4)))
     | Some _ => mret tt
     end) >>>
    mret (None, get_next_player (active_player e))
  else
    w <- lift (get_trick_winner e) ;;
    clear_table >>>
    modify (fun e' => set_tricks_played (tricks_played e' + 1) e') >>>
    modify (fun e' => set_won (upd (won_tricks e') w (won_tricks e' w + 1)) e') >>>
    modify (fun e' => set_won (upd (won_tricks e') (partner w)
                                   (won_tricks e' (partner w) + 1)) e') >>>
    mret (Some w, w).

(** The card selection of [BridgeEnv._game_controller]; [r] is the index
    [random.choice] draws.
    {v
        if action in self.get_available_actions(self.state['active_player']):
            card = self.state['hands'][self.state['active_player']].remove_card(action)
            action_is_valid = True
        else:
            card = self.state['hands'][self.state['active_player']].remove_card(
                choice(self.get_available_actions(self.state['active_player'])))
            action_is_valid = False
    v}
    Returns the new hand, the card and [action_is_valid]. *)
Definition select_card (cfg : Cfg) (e : Env) (act : action) (r : nat)
  : res (list Z * Z * bool) :=
  let p := active_player e in
  av <-? get_available_actions cfg e p ;;
  isin <-? py_in act av ;;
  if isin then hc <-? remove_card (hands e p) act ;; inr (fst hc, snd hc, true)
  else av2 <-? get_available_actions cfg e p ;;
       c <-? choice av2 r ;;
       hc <-? remove_card (hands e p) c ;;
       inr (fst hc, snd hc, false).

(** [BridgeEnv._game_controller(action)] *)
Definition game_controller (cfg : Cfg) (act : action) (r : nat) : M unit :=
  e <- mget ;;
  let p := active_player e in
  sel <- lift (select_card cfg e act r) ;;
  let '(hand', card, valid) := sel in
  play_card p hand' card >>>
  wn <- advance card ;;
  e2 <- mget ;;
  rw <- lift (get_rewards cfg e2 (fst wn) valid) ;;
  modify (set_rewards rw) >>>
  modify (set_active (snd wn)).

(** [actions_are_valid = {player: actions.get(player) in
    self.get_available_actions(player) for player in self.players}] *)
Definition actions_validity (cfg : Cfg) (e : Env) (acts : player -> action) : res vdict :=
  mapR (fun p => av <-? get_available_actions_sim cfg e p ;;
                 b <-? py_in (acts p) av ;; inr (p, b)) players.

(** The card selection of [BridgeSimultaneousActionsEnv._game_controller]. *)
Definition select_card_sim (cfg : Cfg) (e : Env) (acts : player -> action) (r : nat)
  : res (list Z * Z * vdict) :=
  let p := active_player e in
  valid <-? actions_validity cfg e acts ;;
  if vget valid p then hc <-? remove_card (hands e p) (acts p) ;; inr (fst hc, snd hc, valid)
  else av <-? get_available_actions_sim cfg e p ;;
       c <-? choice av r ;;
       hc <-? remove_card (hands e p) c ;;
       inr (fst hc, snd hc, valid).

(** [BridgeSimultaneousActionsEnv._game_controller(actions)]; a seat
    missing from [actions] is [ActNone] ([actions.get(player)] is [None]). *)
Definition game_controller_sim (cfg : Cfg) (acts : player -> action) (r : nat) : M unit :=
  e <- mget ;;
  let p := active_player e in
  sel <- lift (select_card_sim cfg e acts r) ;;
  let '(hand', card, valid) := sel in
  play_card p hand' card >>>
  wn <- advance card ;;
  e2 <- mget ;;
  rw <- lift (get_rewards_sim cfg e2 (fst wn) valid) ;;
  modify (set_rewards rw) >>>
  modify (set_active (snd wn)).

(** ** Python values returned by [step] and [reset] *)

#[warnings="-register-all"]
Inductive pyval :=
| PNone
| PBool (b : bool)
| PInt (z : Z)
| PStr (s : string)
| PList (l : list pyval)
| PDict (kv : list (pyval * pyval))
| PTuple (l : list pyval).

Definition py_ints (l : list Z) : pyval := PList (map PInt l).
Definition py_opt (o : option Z) : pyval :=
  match o with None => PNone | Some z => PInt z end.

(** A dict comprehension over [self.players]. *)
Definition seat_dict (f : player -> pyval) : pyval :=
  PDict (map (fun q => (PStr (player_name q), f q)) players).

Definition range (n : nat) : list Z := map Z.of_nat (seq 0 n).

(** [[1 if i == x else 0 for i in range(n)]]; [i == None] is [False]. *)
Definition one_hot_opt (n : nat) (x : option Z) : list Z :=
  map (fun i => match x with Some z => if i =? z then 1 else 0 | None => 0 end) (range n).

Definition py_played (f : list Z -> pyval) (e : Env) : pyval :=
  PDict (map (fun i => (PInt i, seat_dict (fun q => f (played_tricks e i q)))) (range 13)).

(** [get_player_observation(player)] (the same in both environments). *)
Definition get_player_observation (cfg : Cfg) (e : Env) (p : player) : pyval :=
  let ro := players_roles e in
  let first_card := (tricks_played e =? 0) && (n_cards_on_table e =? 0) in
  let pos q := PInt (Z.of_nat (player_index q)) in
  let pos_mb q := py_ints (map (fun plr => if player_eqb plr q then 1 else 0) players) in
  let mb l := py_ints (get_cards_multi_binary l) in
  match observation_space_mode cfg with
  | OMInteger =>
      PDict [(PStr "player_position", pos p);
             (PStr "dummy_position", pos (dummy ro));
             (PStr "active_player_position", pos (active_player e));
             (PStr "player_hand", py_ints (hands e p));
             (PStr "dummy_hand", if first_card then PList [] else py_ints (hands e (dummy ro)));
             (PStr "table", seat_dict (fun q => py_ints (table e q)));
             (PStr "played_tricks", py_played py_ints e);
             (PStr "current_suit", py_opt (current_suit e));
             (PStr "trump", py_opt (trump e));
             (PStr "contract_value", PInt (contract_value e));
             (PStr "won_tricks", PInt (won_tricks e p))]
  | OMMultiBinary =>
      PDict [(PStr "player_position", pos_mb p);
             (PStr "dummy_position", pos_mb (dummy ro));
             (PStr "active_player_position", pos_mb (active_player e));
             (PStr "player_hand", mb (hands e p));
             (PStr "dummy_hand", if first_card then py_ints (repeat 0 52)
                                 else mb (hands e (dummy ro)));
             (PStr "table", seat_dict (fun q => mb (table e q)));
             (PStr "played_tricks", py_played mb e);
             (PStr "current_suit", py_ints (one_hot_opt 4 (current_suit e)));
             (PStr "trump", py_ints (one_hot_opt 4 (trump e)));
             (PStr "contract_value", py_ints (one_hot_opt 7 (Some (contract_value e))));
             (PStr "won_tricks", py_ints (one_hot_opt 13 (Some (won_tricks e p))))]
  | OMMixed =>
      PDict [(PStr "player_position", pos p);
             (PStr "dummy_position", pos (dummy ro));
             (PStr "active_player_position", pos (active_player e));
             (PStr "player_hand", mb (hands e p));
             (PStr "dummy_hand", if first_card then py_ints (repeat 0 52)
                                 else mb (hands e (dummy ro)));
             (PStr "table", seat_dict (fun q => mb (table e q)));
             (PStr "played_tricks", py_played mb e);
             (PStr "current_suit", py_opt (current_suit e));
             (PStr "trump", py_opt (trump e));
             (PStr "contract_value", PInt (contract_value e));
             (PStr "won_tricks", PInt (won_tricks e p))]
  end.

(** [self.rewards.get(player)] *)
Definition rewards_get (d : rdict) (p : player) : pyval :=
  match dget d p with inr z => PInt z | inl _ => PNone end.

Definition py_rewards (d : rdict) : pyval :=
  PDict (map (fun pz => (PStr (player_name (fst pz)), PInt (snd pz))) d).

(** [BridgeEnv.step(action)]:
    {v
        self._game_controller(action)
        observation = self.get_player_observation(self.state.get('active_player'))
        reward = self.rewards.get(self.state.get('active_player'))
        done = self.state.get('hands').get(self.state.get('active_player')).is_empty()
        info = {}
        return observation, reward, done, info
    v} *)
Definition step (cfg : Cfg) (act : action) (r : nat) : M pyval :=
  game_controller cfg act r >>>
  e <- mget ;;
  let p := active_player e in
  mret (PTuple [get_player_observation cfg e p; rewards_get (rewards e) p;
                PBool (match hands e p with [] => true | _ => false end); PDict []]).

(** [BridgeSimultaneousActionsEnv.step(actions)] *)
Definition step_sim (cfg : Cfg) (acts : player -> action) (r : nat) : M pyval :=
  game_controller_sim cfg acts r >>>
  e <- mget ;;
  mret (PTuple [seat_dict (get_player_observation cfg e);
                py_rewards (rewards e);
                seat_dict (fun q => PBool (match hands e q with [] => true | _ => false end));
                PDict []]).

(** ** Dealing and [reset] *)

(** Python's stable [list.sort(key=k)] for int lists (insertion sort). *)
Fixpoint insert_by (k : Z -> Z) (x : Z) (l : list Z) : list Z :=
  match l with
  | [] => [x]
  | y :: r => if k x <=? k y then x :: y :: r else y :: insert_by k x r
  end.

Fixpoint sort_by (k : Z -> Z) (l : list Z) : list Z :=
  match l with
  | [] => []
  | x :: r => insert_by k x (sort_by k r)
  end.

(** [CardList.sort_cards]: [self.sort(); self.sort(key=lambda x: x % 4)] *)
Definition sort_cards (l : list Z) : list Z :=
  sort_by (fun x => x mod 4) (sort_by (fun x => x) l).

(** [_deal_random_cards] after [shuffle(random_cards)] produced [deck]:
    seat number [i] gets [random_cards[13*i : 13*(i+1)]], appended to its
    hand, and the hand is sorted. *)
Definition deal_random_cards (deck : list Z) (h : player -> list Z) : player -> list Z :=
  fun p => sort_cards (h p ++ firstn 13 (skipn (13 * player_index p) deck)).

(** [random.shuffle(list(range(52)))] yields a permutation of [range(52)]. *)
Definition standard_deck (deck : list Z) : Prop := Permutation deck (range 52).

Definition empty_seats : player -> list Z := fun _ => [].
Definition empty_played : Z -> player -> list Z := fun _ _ => [].
Definition zero_won : player -> Z := fun _ => 0.

(** [BridgeEnv.reset()] with no [initial_state]; [decl], [tr], [cv] and
    [deck] are the values of [choice(self.players)],
    [choice([0, 1, 2, 3, None])], [choice([1, ..., 7])] and the shuffled
    deck.  [self.rewards] is not reset. *)
Definition reset_none (cfg : Cfg) (decl : player) (tr : option Z) (cv : Z) (deck : list Z)
  : M pyval :=
  modify (fun e =>
    let ro := set_players_roles_of decl in
    mkEnv (defender_1 ro) (deal_random_cards deck empty_seats) empty_seats empty_played
          zero_won None tr cv ro 0 0 (rewards e)) >>>
  e <- mget ;;
  mret (get_player_observation cfg e (active_player e)).

(** A value given for a hand in [initial_state['hands']]. *)
Inductive hand_val := HInt (z : Z) | HList (l : list Z) | HOther.

(** An [initial_state] dict; [None] for a missing key. *)
Record init_state := mkInit {
  is_player : option string;
  is_trump : option (option Z);
  is_contract_value : option Z;
  is_hands : option (list (string * hand_val)) }.

(** [CardList().add_cards(x)]:
    [assert isinstance(cards_list, (int, list))], then append or extend. *)
Definition add_cards_new (v : hand_val) : res (list Z) :=
  match v with
  | HInt z => inr [z]
  | HList l => inr l
  | HOther => inl AssertionError
  end.

(** [initial_state.get('hands', {}).get(name, [])] *)
Definition init_hand (st : init_state) (p : player) : hand_val :=
  match is_hands st with
  | None => HList []
  | Some kv =>
      match find (fun kv' => String.eqb (fst kv') (player_name p)) kv with
      | Some (_, v) => v
      | None => HList []
      end
  end.

(** [declarer in self.players] *)
Definition parse_player (s : string) : option player :=
  find (fun p => String.eqb (player_name p) s) players.

(** [_set_players_roles(declarer)]: raises on a string that is not a seat. *)
Definition set_players_roles (s : string) : res roles :=
  match parse_player s with
  | Some d => inr (set_players_roles_of d)
  | None => inl Exception_
  end.

(** [BridgeEnv.reset(initial_state)] for a dict [initial_state]; the
    random defaults are arguments as in [reset_none]. *)
Definition reset_init (cfg : Cfg) (st : init_state)
           (decl : player) (tr : option Z) (cv : Z) (deck : list Z) : M pyval :=
  modify (set_tricks_played 0) >>>
  modify (set_n_cards 0) >>>
  ro <- lift (set_players_roles
                (match is_player st with Some s => s | None => player_name decl end)) ;;
  let tr' := match is_trump st with Some t => t | None => tr end in
  let cv' := match is_contract_value st with Some c => c | None => cv end in
  modify (fun e => mkEnv (active_player e) (hands e) (table e) (played_tricks e)
                         (won_tricks e) (current_suit e) tr' cv' ro
                         (n_cards_on_table e) (tricks_played e) (rewards e)) >>>
  hN <- lift (add_cards_new (init_hand st PN)) ;;
  hE <- lift (add_cards_new (init_hand st PE)) ;;
  hS <- lift (add_cards_new (init_hand st PS)) ;;
  hW <- lift (add_cards_new (init_hand st PW)) ;;
  let h0 := fun p => match p with PN => hN | PE => hE | PS => hS | PW => hW end in
  let no_hands := match is_hands st with None | Some [] => true | _ => false end in
  modify (fun e => mkEnv (defender_1 ro) (if no_hands then deal_random_cards deck h0 else h0)
                         empty_seats empty_played zero_won None tr' cv' ro 0 0 (rewards e)) >>>
  e <- mget ;;
  mret (get_player_observation cfg e (active_player e)).

(** ** Further CardList methods and the observation spaces *)

(** [CardList.convert_multi_binary_to_integer(card_multi_binary)]:
    [int(np.argmax(card_multi_binary))] *)
Definition convert_multi_binary_to_integer (card_multi_binary : list Z) : res Z :=
  i <-? np_argmax card_multi_binary ;; inr (Z.of_nat i).

(** [np.count_nonzero(x)] *)
Definition count_nonzero (x : list Z) : Z :=
  Z.of_nat (List.length (filter (fun z => negb (z =? 0)) x)).

(** [MultiBinaryLimited(n, low_limit, high_limit).contains(x)] for a list [x]:
    {v
        return ((x == 0) | (x == 1)).all() and self.low_limit <= np.count_nonzero(x) <= self.high_limit
    v}
    ([n] is not checked). *)
Definition multi_binary_limited_contains (low_limit high_limit : Z) (x : list Z) : bool :=
  forallb (fun z => (z =? 0) || (z =? 1)) x &&
  ((low_limit <=? count_nonzero x) && (count_nonzero x <=? high_limit)).

(** [obs[k]] on a dict with string keys. *)
Fixpoint assoc_str (kv : list (pyval * pyval)) (k : string) : option pyval :=
  match kv with
  | [] => None
  | (PStr s, v) :: r => if String.eqb s k then Some v else assoc_str r k
  | _ :: r => assoc_str r k
  end.

Definition py_getitem (v : pyval) (k : string) : option pyval :=
  match v with PDict kv => assoc_str kv k | _ => None end.

(** The order [sort_cards] aims at: by suit, then by value. *)
Definition card_order (a b : Z) : Prop :=
  a mod 4 < b mod 4 \/ (a mod 4 = b mod 4 /\ a <= b).

(** ** The card power as the spec words it *)

(** Spec 4.3: base value, +100 if the suit is the led suit, +200 if trump
    is not no-trump and the suit is trump.  The base is the card's int
    value (the spec's reason for injectivity is that "all 52 card values
    are distinct"). *)
Definition spec_card_power (led : Z) (tr : option Z) (c : Z) : Z :=
  c + (if c mod 4 =? led then 100 else 0)
    + (match tr with Some t => if c mod 4 =? t then 200 else 0 | None => 0 end).

(** The value [one_card_power] computes for a one-card list. *)
Definition card_power (cs : option Z) (tr : option Z) (c : Z) : Z :=
  match one_card_power [c] cs tr with inr z => z | inl _ => c end.

(** ** The cards of an environment *)

(** Every card the environment holds: the four hands, the table and the
    thirteen slots of [played_tricks]. *)
Definition all_cards (e : Env) : list Z :=
  flat_map (hands e) players ++ flat_map (table e) players ++
  flat_map (fun t => flat_map (played_tricks e t) players) (range 13).

(** Episodes started by [reset()] from a shuffled deck, continued by any
    calls of [step] (of either environment), whatever each call raises:
    a raised exception keeps the mutations made before it. *)
Inductive reachable (cfg : Cfg) : Env -> Prop :=
| reach_reset e0 decl tr cv deck :
    standard_deck deck -> reachable cfg (fst (reset_none cfg decl tr cv deck e0))
| reach_step e act r :
    reachable cfg e -> reachable cfg (fst (step cfg act r e))
| reach_step_sim e acts r :
    reachable cfg e -> reachable cfg (fst (step_sim cfg acts r e)).

(** Hands, table and trick history agree. *)
Definition same_layout (e e' : Env) : Prop :=
  (forall q, hands e' q = hands e q) /\ (forall q, table e' q = table e q) /\
  (forall i q, played_tricks e' i q = played_tricks e i q).

(** [c] went from the active seat's hand to its table slot. *)
Definition moved_card (e e' : Env) (c : Z) : Prop :=
  let p := active_player e in
  exists h', list_remove (hands e p) c = inr h' /\
    (forall q, hands e' q = upd (hands e) p h' q) /\
    (forall q, table e' q = upd (table e) p (table e p ++ [c]) q) /\
    (forall i q, played_tricks e' i q = played_tricks e i q).

(** [c] went from the active seat's hand to the table, which then held
    exactly one card per seat, and those four cards went to the slots of
    trick number [tricks_played]. *)
Definition moved_and_cleared (e e' : Env) (c : Z) : Prop :=
  let p := active_player e in
  let T := upd (table e) p (table e p ++ [c]) in
  exists h', list_remove (hands e p) c = inr h' /\
    (forall q, hands e' q = upd (hands e) p h' q) /\
    (forall q, exists x, T q = [x]) /\
    (forall q, table e' q = []) /\
    0 <= tricks_played e < 13 /\
    (forall i q, played_tricks e' i q =
                 if i =? tricks_played e then played_tricks e i q ++ T q
                 else played_tricks e i q).

Definition card_moved (e e' : Env) : Prop :=
  (exists c, moved_card e e' c) \/ (exists c, moved_and_cleared e e' c).

(** What a call of [step] can do to the cards: nothing (it raised before
    a card was taken), or move one card. *)
Definition step_shape (e e' : Env) : Prop := same_layout e e' \/ card_moved e e'.

Abbreviation cnt l x := (count_occ Z.eq_dec l x).

(** ** The contract outcome as the amended C4 words it *)

(** Declarer and dummy 1 and the defenders 0 when [won_tricks] of the
    declarer (the trick count of the declarer's side) plus [bonus] reaches
    [contract_value + 6], the reverse otherwise. *)
Definition contract_outcome (e : Env) (bonus : Z) (p : player) : Z :=
  let ro := players_roles e in
  let made := contract_value e + 6 <=? won_tricks e (declarer ro) + bonus in
  if player_eqb p (declarer ro) || player_eqb p (dummy ro)
  then (if made then 1 else 0) else (if made then 0 else 1).

(** ** The trick outcome as C6 words it *)

(** 1 for the winner [w] of a trick and for its partner, 0 for the others. *)
Definition trick_outcome (w p : player) : Z :=
  if player_eqb p w || player_eqb p (partner w) then 1 else 0.

(** * Proofs *)

Ltac card_facts x :=
  pose proof (Z.div_mod x 4 ltac:(lia)); pose proof (Z.mod_pos_bound x 4 ltac:(lia)).

Lemma one_card_power_single cs tr c :
  one_card_power [c] cs tr = inr (card_power cs tr c).
Proof.
  unfold card_power, one_card_power.
  destruct tr as [t|]; [destruct (c mod 4 =? t)|]; destruct cs as [s|];
    try destruct (c mod 4 =? s); reflexivity.
Qed.

(** The three shapes of the code's power. *)
Lemma card_power_cases led tr c :
  (exists t, tr = Some t /\ c mod 4 = t /\ card_power (Some led) tr c = c + 200) \/
  ((forall t, tr = Some t -> c mod 4 <> t) /\ c mod 4 = led /\
     card_power (Some led) tr c = c + 100) \/
  ((forall t, tr = Some t -> c mod 4 <> t) /\ c mod 4 <> led /\
     card_power (Some led) tr c = c).
Proof.
  unfold card_power, one_card_power.
  destruct tr as [t|].
  - destruct (Z.eqb_spec (c mod 4) t) as [Ht|Ht].
    + left. exists t. auto.
    + right. destruct (Z.eqb_spec (c mod 4) led) as [Hl|Hl].
      * left. repeat split; auto. intros t' [= <-]. auto.
      * right. repeat split; auto. intros t' [= <-]. auto.
  - right. destruct (Z.eqb_spec (c mod 4) led) as [Hl|Hl].
    + left. repeat split; auto. discriminate.
    + right. repeat split; auto. discriminate.
Qed.

Lemma spec_card_power_eq led tr c :
  spec_card_power led tr c =
  card_power (Some led) tr c +
  (match tr with Some t => if (c mod 4 =? t) && (c mod 4 =? led) then 100 else 0
            | None => 0 end).
Proof.
  unfold spec_card_power, card_power, one_card_power.
  destruct tr as [t|].
  - destruct (Z.eqb_spec (c mod 4) t); destruct (Z.eqb_spec (c mod 4) led); simpl; lia.
  - destruct (Z.eqb_spec (c mod 4) led); simpl; lia.
Qed.

(** On cards the two powers order cards the same way. *)
Ltac split_eqb :=
  repeat match goal with
         | |- context [?a =? ?b] => destruct (Z.eqb_spec a b)
         | H : context [?a =? ?b] |- _ => destruct (Z.eqb_spec a b)
         end.

Lemma card_power_spec_lt led tr x y :
  0 <= x < 52 -> 0 <= y < 52 ->
  card_power (Some led) tr x < card_power (Some led) tr y ->
  spec_card_power led tr x < spec_card_power led tr y.
Proof.
  unfold spec_card_power, card_power, one_card_power.
  destruct tr as [t|]; intros Hx Hy Hlt; split_eqb; simpl in *; lia.
Qed.

Lemma card_power_inj led tr x y :
  0 <= x < 52 -> 0 <= y < 52 ->
  card_power (Some led) tr x = card_power (Some led) tr y -> x = y.
Proof.
  unfold card_power, one_card_power.
  destruct tr as [t|]; intros Hx Hy Heq; split_eqb; simpl in *; lia.
Qed.

Lemma spec_card_power_inj led tr x y :
  0 <= x < 52 -> 0 <= y < 52 ->
  spec_card_power led tr x = spec_card_power led tr y -> x = y.
Proof.
  unfold spec_card_power.
  destruct tr as [t|]; intros Hx Hy Heq; split_eqb; simpl in *; lia.
Qed.

Lemma mapR_inr {A B} (f : A -> res B) (g : A -> B) (l : list A) :
  (forall x, In x l -> f x = inr (g x)) -> mapR f l = inr (map g l).
Proof.
  induction l as [|x l IH]; intros H; simpl; [reflexivity|].
  rewrite (H x (or_introl eq_refl)); simpl.
  rewrite IH; [reflexivity|]. intros y Hy. apply H. right. exact Hy.
Qed.

Lemma argmax_players (f : player -> Z) :
  exists w, np_argmax (map f players) = inr (player_index w) /\ forall q, f q <= f w.
Proof.
  unfold np_argmax, players; simpl.
  repeat match goal with
         | |- context [?a <? ?b] => destruct (Z.ltb_spec a b)
         end;
  first [ exists PN; split; [reflexivity | intros []; lia]
        | exists PE; split; [reflexivity | intros []; lia]
        | exists PS; split; [reflexivity | intros []; lia]
        | exists PW; split; [reflexivity | intros []; lia] ].
Qed.

Lemma index_players_index w : index_players (player_index w) = inr w.
Proof. destruct w; reflexivity. Qed.

(** A complete trick (one card per seat): [_get_trick_winner] returns a
    seat whose code power is maximal. *)
Lemma get_trick_winner_max (e : Env) (c : player -> Z) :
  n_cards_on_table e = 4 ->
  (forall p, table e p = [c p]) ->
  exists w, get_trick_winner e = inr w /\
    forall q, card_power (current_suit e) (trump e) (c q)
              <= card_power (current_suit e) (trump e) (c w).
Proof.
  intros Hn Ht. unfold get_trick_winner. rewrite Hn. cbv [negb Z.eqb Pos.eqb].
  rewrite (mapR_inr _ (fun p => card_power (current_suit e) (trump e) (c p)));
    [| intros p _; rewrite Ht; apply one_card_power_single].
  destruct (argmax_players (fun p => card_power (current_suit e) (trump e) (c p)))
    as [w [Hw Hmax]].
  cbn [rbind]. rewrite Hw. cbn [rbind]. exists w. split; [apply index_players_index | exact Hmax].
Qed.

(** C1. For a completed trick (one card per seat, card ids in [0, 52),
    pairwise distinct, current suit the suit of one of them), the seat
    [_get_trick_winner] returns holds the card of strictly maximal power
    as the spec defines power; that power is injective on the trick; a
    trump card beats every card of a led suit other than trump; and with
    a trump suit the winner holds the highest-ranked trump when a trump
    was played, otherwise the highest-ranked card of the led suit. *)
Theorem trick_winner_spec (e : Env) (c : player -> Z) (led : Z) :
  n_cards_on_table e = 4 ->
  (forall p, table e p = [c p]) ->
  (forall p, 0 <= c p < 52) ->
  (forall p q, c p = c q -> p = q) ->
  current_suit e = Some led ->
  (exists p, suit (c p) = led) ->
  exists w, get_trick_winner e = inr w /\
    (forall p, p <> w ->
       spec_card_power led (trump e) (c p) < spec_card_power led (trump e) (c w)) /\
    (forall p q, p <> q ->
       spec_card_power led (trump e) (c p) <> spec_card_power led (trump e) (c q)) /\
    (forall t p q, trump e = Some t -> suit (c p) = t -> suit (c q) = led -> led <> t ->
       spec_card_power led (trump e) (c q) < spec_card_power led (trump e) (c p)) /\
    (forall t, trump e = Some t -> (exists p, suit (c p) = t) ->
       suit (c w) = t /\ forall p, p <> w -> suit (c p) = t -> rank (c p) < rank (c w)) /\
    (forall t, trump e = Some t -> (forall p, suit (c p) <> t) ->
       suit (c w) = led /\ forall p, p <> w -> suit (c p) = led -> rank (c p) < rank (c w)).
Proof.
  intros Hn Ht Hr Hd Hcs [p0 Hp0].
  destruct (get_trick_winner_max e c Hn Ht) as [w [Hw Hmax]].
  rewrite Hcs in Hmax.
  assert (Hstrict : forall p, p <> w ->
    card_power (Some led) (trump e) (c p) < card_power (Some led) (trump e) (c w)).
  { intros p Hpw. specialize (Hmax p).
    destruct (Z.eq_dec (card_power (Some led) (trump e) (c p))
                       (card_power (Some led) (trump e) (c w))) as [Heq|Hne]; [|lia].
    exfalso. apply Hpw, Hd. apply (card_power_inj led (trump e)); auto. }
  exists w. split; [exact Hw|]. split; [|split; [|split; [|split]]].
  - intros p Hpw. apply card_power_spec_lt; auto.
  - intros p q Hpq Heq. apply Hpq, Hd. eapply spec_card_power_inj; eauto.
  - intros t p q Htr Hpt Hql Hlt. unfold suit in *. rewrite Htr.
    pose proof (Hr p). pose proof (Hr q). unfold spec_card_power.
    split_eqb; lia.
  - intros t Htr [p1 Hp1]. unfold suit, rank in *.
    assert (Hsw : c w mod 4 = t).
    { destruct (Z.eq_dec (c w mod 4) t) as [|Hne]; [assumption|exfalso].
      assert (p1 <> w) by (intros ->; contradiction).
      specialize (Hstrict p1 ltac:(assumption)).
      pose proof (Hr p1). pose proof (Hr w).
      unfold card_power, one_card_power in Hstrict. rewrite Htr in Hstrict.
      split_eqb; simpl in *; lia. }
    split; [exact Hsw|]. intros p Hpw Hpt.
    specialize (Hstrict p Hpw). pose proof (Hr p). pose proof (Hr w).
    unfold card_power, one_card_power in Hstrict. rewrite Htr in Hstrict.
    split_eqb; simpl in *; card_facts (c p); card_facts (c w); lia.
  - intros t Htr Hnot. unfold suit, rank in *.
    pose proof (Hnot w) as Hnw.
    assert (Hsw : c w mod 4 = led).
    { destruct (Z.eq_dec (c w mod 4) led) as [|Hne]; [assumption|exfalso].
      assert (p0 <> w) by (intros ->; contradiction).
      specialize (Hstrict p0 ltac:(assumption)). pose proof (Hnot p0).
      pose proof (Hr p0). pose proof (Hr w).
      unfold card_power, one_card_power in Hstrict. rewrite Htr in Hstrict.
      split_eqb; simpl in *; lia. }
    split; [exact Hsw|]. intros p Hpw Hpl.
    specialize (Hstrict p Hpw). pose proof (Hnot p). pose proof (Hr p). pose proof (Hr w).
    unfold card_power, one_card_power in Hstrict. rewrite Htr in Hstrict.
    split_eqb; simpl in *; card_facts (c p); card_facts (c w); lia.
Qed.

(** The trick of the spec's example: led hearts, trump spades,
    N: 2 of spades (3), E: ace of hearts (50), S: 3 of diamonds (5),
    W: 5 of hearts (14). *)
Definition ex_trick (p : player) : Z :=
  match p with PN => 3 | PE => 50 | PS => 5 | PW => 14 end.

Definition ex_trick_env : Env :=
  mkEnv PN empty_seats (fun p => [ex_trick p]) empty_played zero_won (Some 2) (Some 3) 3
        (set_players_roles_of PN) 4 0 initial_rewards.

Example ex_trick_winner : get_trick_winner ex_trick_env = inr PN.
Proof. reflexivity. Qed.

Lemma trick_winner_spec_witness :
  (forall p q, ex_trick p = ex_trick q -> p = q) /\
  exists w, get_trick_winner ex_trick_env = inr w /\
    forall p, p <> w -> spec_card_power 2 (Some 3) (ex_trick p) < spec_card_power 2 (Some 3) (ex_trick w).
Proof.
  assert (Hd : forall p q, ex_trick p = ex_trick q -> p = q)
    by (intros [] []; simpl; intros H; first [reflexivity | discriminate H]).
  split; [exact Hd|].
  destruct (trick_winner_spec ex_trick_env ex_trick 2 eq_refl (fun p => eq_refl)
              ltac:(intros []; simpl; lia) Hd eq_refl (ex_intro _ PE eq_refl))
    as [w [Hw [Hs _]]].
  exists w. split; [exact Hw | exact Hs].
Defined.

(** ** Legal actions and the played card *)

(** Spec 4.4 step 1, in the spec's words: the whole hand when nothing was
    led, else the cards of the led suit, else the whole hand. *)
Definition spec_legal_set (hand : list Z) (led : option Z) : list Z :=
  match led with
  | None => hand
  | Some s => match filter (fun x => x mod 4 =? s) hand with
              | [] => hand
              | l => l
              end
  end.

Lemma legal_cards_spec (e : Env) (p : player) :
  (forall s, current_suit e = Some s -> 0 <= s <= 3) ->
  legal_cards e p = inr (spec_legal_set (hands e p) (current_suit e)).
Proof.
  intros Hs. unfold legal_cards, spec_legal_set, get_suit_cards.
  destruct (current_suit e) as [s|]; [|reflexivity].
  specialize (Hs s eq_refl).
  replace ((0 <=? s) && (s <=? 3)) with true by (symmetry; apply andb_true_iff; lia).
  cbn [rbind]. destruct (filter _ _); reflexivity.
Qed.

Lemma in_spec_legal_set_suit (hand : list Z) (s x : Z) :
  (exists y, In y hand /\ y mod 4 = s) ->
  In x (spec_legal_set hand (Some s)) -> x mod 4 = s /\ In x hand.
Proof.
  intros [y [Hy Hys]] Hx. unfold spec_legal_set in Hx.
  destruct (filter (fun x => x mod 4 =? s) hand) as [|a l] eqn:Hf.
  - exfalso. assert (In y (filter (fun x => x mod 4 =? s) hand)).
    { apply filter_In. split; [assumption | apply Z.eqb_eq; assumption]. }
    rewrite Hf in H. contradiction.
  - rewrite <- Hf in Hx. apply filter_In in Hx as [Hx Hxs].
    apply Z.eqb_eq in Hxs. auto.
Qed.

Lemma in_spec_legal_set_hand (hand : list Z) (o : option Z) (x : Z) :
  In x (spec_legal_set hand o) -> In x hand.
Proof.
  unfold spec_legal_set. destruct o as [s|]; [|auto].
  destruct (filter (fun x => x mod 4 =? s) hand) as [|a l] eqn:Hf; [auto|].
  rewrite <- Hf. intros Hx. apply filter_In in Hx. tauto.
Qed.

Definition one_hot_check (c : Z) : bool :=
  match one_hot c with
  | inr v => match np_argmax v with inr i => Nat.eqb i (Z.to_nat c) | inl _ => false end
  | inl _ => false
  end.

Lemma one_hot_check_all : forallb one_hot_check (range 52) = true.
Proof. vm_compute. reflexivity. Qed.

Lemma in_range (n : nat) (c : Z) : 0 <= c < Z.of_nat n -> In c (range n).
Proof.
  intros Hc. unfold range. replace c with (Z.of_nat (Z.to_nat c)) by lia.
  apply in_map, in_seq. lia.
Qed.

Lemma one_hot_argmax (c : Z) :
  0 <= c < 52 -> exists v, one_hot c = inr v /\ np_argmax v = inr (Z.to_nat c).
Proof.
  intros Hc. pose proof one_hot_check_all as H.
  rewrite forallb_forall in H. specialize (H c (in_range 52 c Hc)).
  unfold one_hot_check in H.
  destruct (one_hot c) as [|v]; [discriminate|].
  destruct (np_argmax v) as [|i] eqn:Ha; [discriminate|].
  apply Nat.eqb_eq in H. subst i. eauto.
Qed.

Lemma list_Z_eqb_eq (a b : list Z) : list_Z_eqb a b = true -> a = b.
Proof.
  revert b. induction a as [|x a IH]; intros [|y b]; simpl; try discriminate; auto.
  intros H. apply andb_true_iff in H as [Hxy Hab].
  apply Z.eqb_eq in Hxy. subst. f_equal. auto.
Qed.

Lemma mapR_one_hot_in (l : list Z) (ls : list (list Z)) (v : list Z) :
  mapR one_hot l = inr ls -> In v ls -> exists c, In c l /\ one_hot c = inr v.
Proof.
  revert ls. induction l as [|x l IH]; intros ls H Hv; simpl in H.
  - injection H as <-. contradiction.
  - destruct (one_hot x) as [|y] eqn:Hx; [discriminate|]. cbn [rbind] in H.
    destruct (mapR one_hot l) as [|ys] eqn:Hl; [discriminate|]. cbn [rbind] in H.
    injection H as <-. destruct Hv as [<-|Hv].
    + exists x. split; [left; reflexivity | exact Hx].
    + destruct (IH ys eq_refl Hv) as [c [Hc Hcv]]. exists c. split; [right; exact Hc | exact Hcv].
Qed.

Lemma choice_in (v : avail) (r : nat) (a : action) :
  choice v r = inr a ->
  (exists l c, v = AvInts l /\ a = ActInt c /\ In c l) \/
  (exists ls w, v = AvLists ls /\ a = ActList w /\ In w ls).
Proof.
  destruct v as [l|ls|]; simpl; [| |discriminate].
  - destruct l as [|x l]; [discriminate|]. intros [= <-]. left.
    exists (x :: l), (nth (r mod length (x :: l)) (x :: l) 0).
    split; [reflexivity|]. split; [reflexivity|]. apply nth_In, Nat.mod_upper_bound. simpl. lia.
  - destruct ls as [|x ls]; [discriminate|]. intros [= <-]. right.
    exists (x :: ls), (nth (r mod length (x :: ls)) (x :: ls) []).
    split; [reflexivity|]. split; [reflexivity|]. apply nth_In, Nat.mod_upper_bound. simpl. lia.
Qed.

Lemma py_in_true (a : action) (v : avail) :
  py_in a v = inr true ->
  (exists l c, v = AvInts l /\ a = ActInt c /\ In c l) \/
  (exists ls w, v = AvLists ls /\ a = ActList w /\ In w ls).
Proof.
  destruct v as [l|ls|]; simpl; [| |discriminate]; destruct a as [z|w|]; try discriminate.
  - intros [= H]. left. exists l, z. apply existsb_exists in H as [x [Hx Hzx]].
    apply Z.eqb_eq in Hzx. subst. auto.
  - intros [= H]. right. exists ls, w. apply existsb_exists in H as [x [Hx Hwx]].
    apply list_Z_eqb_eq in Hwx. subst. auto.
Qed.

(** An action that is in the available actions, or drawn from them by
    [choice], removes a legal card from the hand. *)
Lemma avail_remove_card (m : amode) (l : list Z) (av : avail) (a : action)
      (hand h' : list Z) (card : Z) :
  encode_avail m l = inr av ->
  (forall x, In x l -> 0 <= x < 52) ->
  ((exists l' c, av = AvInts l' /\ a = ActInt c /\ In c l') \/
   (exists ls w, av = AvLists ls /\ a = ActList w /\ In w ls)) ->
  remove_card hand a = inr (h', card) ->
  In card l /\ list_remove hand card = inr h'.
Proof.
  intros Henc Hrange [[l' [c [-> [-> Hc]]]]|[ls [w [-> [-> Hw]]]]] Hrem.
  - destruct m; simpl in Henc; [|destruct (mapR one_hot l); discriminate].
    injection Henc as <-. simpl in Hrem.
    destruct (list_remove hand c) as [|h''] eqn:Hr; [discriminate|].
    injection Hrem as <- <-. auto.
  - destruct m; simpl in Henc; [discriminate|].
    destruct (mapR one_hot l) as [|ls'] eqn:Hm; [discriminate|].
    injection Henc as <-.
    destruct (mapR_one_hot_in l _ w Hm Hw) as [c [Hc Hoh]].
    destruct (one_hot_argmax c (Hrange c Hc)) as [v [Hv Hav]].
    rewrite Hoh in Hv. injection Hv as <-.
    simpl in Hrem. rewrite Hav in Hrem. cbn [rbind] in Hrem.
    rewrite Z2Nat.id in Hrem by (pose proof (Hrange c Hc); lia).
    destruct (list_remove hand c) as [|h''] eqn:Hr; [discriminate|].
    injection Hrem as <- <-. auto.
Qed.

Lemma legal_cards_incl (e : Env) (p : player) (l : list Z) :
  legal_cards e p = inr l -> forall x, In x l -> In x (hands e p).
Proof.
  unfold legal_cards, get_suit_cards. destruct (current_suit e) as [s|].
  - destruct ((0 <=? s) && (s <=? 3)); [|discriminate]. cbn [rbind].
    destruct (Nat.ltb _ 1); intros [= <-]; [auto|].
    intros x Hx. apply filter_In in Hx. tauto.
  - intros [= <-]. auto.
Qed.

Lemma select_card_in_legal (cfg : Cfg) (e : Env) (act : action) (r : nat)
      (h' : list Z) (card : Z) (v : bool) :
  (forall x, In x (hands e (active_player e)) -> 0 <= x < 52) ->
  select_card cfg e act r = inr (h', card, v) ->
  exists l, legal_cards e (active_player e) = inr l /\ In card l /\
            list_remove (hands e (active_player e)) card = inr h'.
Proof.
  intros Hrange. unfold select_card.
  destruct (get_available_actions cfg e (active_player e)) as [|av] eqn:Hav;
    cbn [rbind]; [discriminate|].
  unfold get_available_actions in Hav.
  destruct (legal_cards e (active_player e)) as [|l] eqn:HL; cbn [rbind] in Hav; [discriminate|].
  assert (Hlr : forall x, In x l -> 0 <= x < 52)
    by (intros x Hx; apply Hrange; eapply legal_cards_incl; eauto).
  destruct (py_in act av) as [|b] eqn:Hin; cbn [rbind]; [discriminate|].
  destruct b.
  - destruct (remove_card (hands e (active_player e)) act) as [|[h1 c1]] eqn:Hr;
      cbn [rbind]; [discriminate|].
    intros [= <- <- _]. exists l. split; [reflexivity|].
    eapply avail_remove_card; eauto. apply py_in_true. exact Hin.
  - destruct (choice av r) as [|a] eqn:Hc; cbn [rbind]; [discriminate|].
    destruct (remove_card (hands e (active_player e)) a) as [|[h1 c1]] eqn:Hr;
      cbn [rbind]; [discriminate|].
    intros [= <- <- _]. exists l. split; [reflexivity|].
    eapply avail_remove_card; eauto. apply choice_in with (r := r). exact Hc.
Qed.

Lemma actions_validity_true (cfg : Cfg) (e : Env) (acts : player -> action)
      (valid : vdict) (p : player) :
  actions_validity cfg e acts = inr valid -> vget valid p = true ->
  exists av, get_available_actions_sim cfg e p = inr av /\ py_in (acts p) av = inr true.
Proof.
  unfold actions_validity, players. cbn [mapR].
  destruct (get_available_actions_sim cfg e PN) as [|aN] eqn:HN; cbn [rbind]; [discriminate|].
  destruct (py_in (acts PN) aN) as [|bN] eqn:HbN; cbn [rbind]; [discriminate|].
  destruct (get_available_actions_sim cfg e PE) as [|aE] eqn:HE; cbn [rbind]; [discriminate|].
  destruct (py_in (acts PE) aE) as [|bE] eqn:HbE; cbn [rbind]; [discriminate|].
  destruct (get_available_actions_sim cfg e PS) as [|aS] eqn:HS; cbn [rbind]; [discriminate|].
  destruct (py_in (acts PS) aS) as [|bS] eqn:HbS; cbn [rbind]; [discriminate|].
  destruct (get_available_actions_sim cfg e PW) as [|aW] eqn:HW; cbn [rbind]; [discriminate|].
  destruct (py_in (acts PW) aW) as [|bW] eqn:HbW; cbn [rbind]; [discriminate|].
  intros [= <-]. destruct p; simpl; intros ->; eauto.
Qed.

Lemma get_available_actions_sim_active (cfg : Cfg) (e : Env) :
  get_available_actions_sim cfg e (active_player e) =
  get_available_actions cfg e (active_player e).
Proof.
  unfold get_available_actions_sim, player_eqb.
  destruct (player_eq_dec (active_player e) (active_player e)); [reflexivity|congruence].
Qed.

Lemma select_card_sim_in_legal (cfg : Cfg) (e : Env) (acts : player -> action) (r : nat)
      (h' : list Z) (card : Z) (valid : vdict) :
  (forall x, In x (hands e (active_player e)) -> 0 <= x < 52) ->
  select_card_sim cfg e acts r = inr (h', card, valid) ->
  exists l, legal_cards e (active_player e) = inr l /\ In card l /\
            list_remove (hands e (active_player e)) card = inr h'.
Proof.
  intros Hrange. unfold select_card_sim.
  destruct (actions_validity cfg e acts) as [|vd] eqn:Hv; cbn [rbind]; [discriminate|].
  rewrite get_available_actions_sim_active.
  destruct (get_available_actions cfg e (active_player e)) as [|av] eqn:Hav.
  { destruct (vget vd (active_player e)) eqn:Hva.
    - destruct (actions_validity_true cfg e acts vd _ Hv Hva) as [av [Hav' _]].
      rewrite get_available_actions_sim_active, Hav in Hav'. discriminate.
    - cbn [rbind]. discriminate. }
  unfold get_available_actions in Hav.
  destruct (legal_cards e (active_player e)) as [|l] eqn:HL; cbn [rbind] in Hav; [discriminate|].
  assert (Hlr : forall x, In x l -> 0 <= x < 52)
    by (intros x Hx; apply Hrange; eapply legal_cards_incl; eauto).
  destruct (vget vd (active_player e)) eqn:Hva.
  - destruct (actions_validity_true cfg e acts vd _ Hv Hva) as [av' [Hav' Hin]].
    rewrite get_available_actions_sim_active in Hav'. unfold get_available_actions in Hav'.
    rewrite HL in Hav'. cbn [rbind] in Hav'. rewrite Hav in Hav'. injection Hav' as <-.
    destruct (remove_card (hands e (active_player e)) (acts (active_player e)))
      as [|[h1 c1]] eqn:Hr; cbn [rbind]; [discriminate|].
    intros [= <- <- _]. exists l. split; [reflexivity|].
    eapply avail_remove_card; eauto. apply py_in_true. exact Hin.
  - cbn [rbind].
    destruct (choice av r) as [|a] eqn:Hc; cbn [rbind]; [discriminate|].
    destruct (remove_card (hands e (active_player e)) a) as [|[h1 c1]] eqn:Hr;
      cbn [rbind]; [discriminate|].
    intros [= <- <- _]. exists l. split; [reflexivity|].
    eapply avail_remove_card; eauto. apply choice_in with (r := r). exact Hc.
Qed.

Lemma legal_card_of_led_suit (e : Env) (led card : Z) (l : list Z) :
  current_suit e = Some led ->
  (exists x, In x (hands e (active_player e)) /\ x mod 4 = led) ->
  legal_cards e (active_player e) = inr l -> In card l ->
  card mod 4 = led.
Proof.
  intros Hcs [y [Hy Hyl]] HL Hc.
  rewrite legal_cards_spec in HL.
  - injection HL as <-. rewrite Hcs in Hc.
    apply (in_spec_legal_set_suit (hands e (active_player e)) led card); eauto.
  - intros s Hs. rewrite Hcs in Hs. injection Hs as <-.
    pose proof (Z.mod_pos_bound y 4 ltac:(lia)). lia.
Qed.

(** C2. The legal set is the spec's: the whole hand when nothing was led,
    the led-suit cards otherwise, the whole hand when the seat has none of
    them.  In both environments, when the active seat holds a card of the
    current led suit, the card that the step removes from its hand (and
    that [play_card] puts on the table) is of the led suit, whether the
    proposed action was legal or [choice] substituted one.  Cards are ids
    in [0, 52). *)
Theorem follow_suit_enforced :
  (forall (e : Env) (p : player),
     (forall s, current_suit e = Some s -> 0 <= s <= 3) ->
     legal_cards e p = inr (spec_legal_set (hands e p) (current_suit e))) /\
  (forall (cfg : Cfg) (e : Env) (act : action) (r : nat) (led : Z)
          (h' : list Z) (card : Z) (v : bool),
     (forall x, In x (hands e (active_player e)) -> 0 <= x < 52) ->
     current_suit e = Some led ->
     (exists x, In x (hands e (active_player e)) /\ x mod 4 = led) ->
     select_card cfg e act r = inr (h', card, v) ->
     card mod 4 = led /\ list_remove (hands e (active_player e)) card = inr h') /\
  (forall (cfg : Cfg) (e : Env) (acts : player -> action) (r : nat) (led : Z)
          (h' : list Z) (card : Z) (valid : vdict),
     (forall x, In x (hands e (active_player e)) -> 0 <= x < 52) ->
     current_suit e = Some led ->
     (exists x, In x (hands e (active_player e)) /\ x mod 4 = led) ->
     select_card_sim cfg e acts r = inr (h', card, valid) ->
     card mod 4 = led /\ list_remove (hands e (active_player e)) card = inr h') /\
  (forall (p : player) (h' : list Z) (card : Z) (e : Env),
     let e' := fst (play_card p h' card e) in
     hands e' p = h' /\ table e' p = table e p ++ [card]).
Proof.
  split; [|split; [|split]].
  - exact legal_cards_spec.
  - intros cfg e act r led h' card v Hr Hcs Hex Hsel.
    destruct (select_card_in_legal cfg e act r h' card v Hr Hsel) as [l [HL [Hc Hrem]]].
    split; [eapply legal_card_of_led_suit; eauto | exact Hrem].
  - intros cfg e acts r led h' card valid Hr Hcs Hex Hsel.
    destruct (select_card_sim_in_legal cfg e acts r h' card valid Hr Hsel) as [l [HL [Hc Hrem]]].
    split; [eapply legal_card_of_led_suit; eauto | exact Hrem].
  - intros p h' card e. simpl. unfold upd, player_eqb.
    destruct (player_eq_dec p p); [|congruence]. auto.
Qed.

Definition cfg_int_play : Cfg := mkCfg AMInteger OMInteger RPlayCards.

(** North to play, hearts led, North holds the 2 of clubs and two hearts
    and proposes the club. *)
Definition ex_follow_env : Env :=
  mkEnv PN (fun p => match p with PN => [0; 2; 6] | _ => [] end) empty_seats empty_played
        zero_won (Some 2) None 3 (set_players_roles_of PS) 1 0 initial_rewards.

Example ex_follow_select : select_card cfg_int_play ex_follow_env (ActInt 0) 1 = inr ([0; 2], 6, false).
Proof. reflexivity. Qed.

Lemma follow_suit_enforced_witness :
  select_card cfg_int_play ex_follow_env (ActInt 0) 1 = inr ([0; 2], 6, false) /\
  6 mod 4 = 2.
Proof.
  split; [reflexivity|].
  destruct follow_suit_enforced as [_ [H _]].
  apply (proj1 (H cfg_int_play ex_follow_env (ActInt 0) 1%nat 2 [0; 2] 6 false
                  ltac:(simpl; intros x [<-|[<-|[<-|[]]]]; lia) eq_refl
                  (ex_intro _ 2 (conj (or_intror (or_introl eq_refl)) eq_refl))
                  eq_refl)).
Defined.

(** ** Layout of the cards through a step *)

Definition neutral {A} (m : M A) : Prop := forall e, same_layout e (fst (m e)).

Lemma same_layout_refl e : same_layout e e.
Proof. repeat split; reflexivity. Qed.

Lemma same_layout_trans e1 e2 e3 :
  same_layout e1 e2 -> same_layout e2 e3 -> same_layout e1 e3.
Proof.
  intros [H1 [T1 P1]] [H2 [T2 P2]]. repeat split; intros; congruence.
Qed.

Lemma bind_get {B} (k : Env -> M B) e : mbind mget k e = k e e.
Proof. reflexivity. Qed.

Lemma bind_lift_inl {A B} (x : exn) (k : A -> M B) e :
  mbind (lift (inl x)) k e = (e, inl x).
Proof. reflexivity. Qed.

Lemma bind_lift_inr {A B} (a : A) (k : A -> M B) e :
  mbind (lift (inr a)) k e = k a e.
Proof. reflexivity. Qed.

Lemma bind_inr {A B} (m : M A) (k : A -> M B) e e' a :
  m e = (e', inr a) -> mbind m k e = k a e'.
Proof. unfold mbind. intros ->. reflexivity. Qed.

Lemma bind_layout {A B} (m : M A) (k : A -> M B) e :
  (forall a, neutral (k a)) -> same_layout (fst (m e)) (fst (mbind m k e)).
Proof.
  intros Hk. unfold mbind. destruct (m e) as [e' [x|a]]; simpl.
  - apply same_layout_refl.
  - apply Hk.
Qed.

Lemma neutral_bind {A B} (m : M A) (k : A -> M B) :
  neutral m -> (forall a, neutral (k a)) -> neutral (mbind m k).
Proof.
  intros Hm Hk e. eapply same_layout_trans; [apply Hm | apply bind_layout, Hk].
Qed.

Lemma neutral_mret {A} (a : A) : neutral (mret a).
Proof. intro. apply same_layout_refl. Qed.

Lemma neutral_lift {A} (r : res A) : neutral (lift r).
Proof. intro. apply same_layout_refl. Qed.

Lemma neutral_mget : neutral mget.
Proof. intro. apply same_layout_refl. Qed.

Lemma neutral_modify (f : Env -> Env) :
  (forall e, same_layout e (f e)) -> neutral (modify f).
Proof. intros H e. apply H. Qed.

Ltac solve_neutral :=
  repeat first
    [ apply neutral_bind; [|intro]
    | apply neutral_mret | apply neutral_lift | apply neutral_mget
    | apply neutral_modify; intro; repeat split; intros; reflexivity ].

(** The end of both game controllers: rewards and the next player. *)
Lemma rewards_tail_neutral (cfg : Cfg) (valid : bool) (wn : option player * player) :
  neutral (e2 <- mget ;;
           rw <- lift (get_rewards cfg e2 (fst wn) valid) ;;
           modify (set_rewards rw) >>> modify (set_active (snd wn))).
Proof. solve_neutral. Qed.

Lemma rewards_tail_sim_neutral (cfg : Cfg) (valid : vdict) (wn : option player * player) :
  neutral (e2 <- mget ;;
           rw <- lift (get_rewards_sim cfg e2 (fst wn) valid) ;;
           modify (set_rewards rw) >>> modify (set_active (snd wn))).
Proof. solve_neutral. Qed.

Lemma one_card_power_ok cl cs tr z :
  one_card_power cl cs tr = inr z -> exists x, cl = [x].
Proof. destruct cl as [|x [|y r]]; simpl; try discriminate. eauto. Qed.

Lemma mapR_inr_all {A B} (f : A -> res B) (l : list A) (l' : list B) :
  mapR f l = inr l' -> forall a, In a l -> exists b, f a = inr b.
Proof.
  revert l'. induction l as [|x r IH]; simpl; intros l' H a Ha; [contradiction|].
  destruct (f x) as [|y] eqn:Hf; [discriminate|]. cbn [rbind] in H.
  destruct (mapR f r) as [|ys] eqn:Hr; [discriminate|].
  destruct Ha as [<-|Ha]; eauto.
Qed.

(** A resolved trick has exactly one card on each seat's table slot. *)
Lemma get_trick_winner_single e w :
  get_trick_winner e = inr w -> forall q, exists x, table e q = [x].
Proof.
  unfold get_trick_winner. destruct (negb _); [discriminate|].
  destruct (mapR _ players) as [|pw] eqn:Hm; cbn [rbind]; [discriminate|].
  intros _ q.
  destruct (mapR_inr_all _ _ _ Hm q ltac:(destruct q; simpl; tauto)) as [z Hz].
  eapply one_card_power_ok; eauto.
Qed.

Lemma clear_one_ok p e x :
  0 <= tricks_played e < 13 -> table e p = [x] ->
  clear_one p e =
  (set_played (fun i q => if (i =? tricks_played e) && player_eqb q p
                          then played_tricks e i q ++ [x] else played_tricks e i q)
              (set_table (upd (table e) p []) e), inr tt).
Proof.
  intros Ht Hx. unfold clear_one. rewrite bind_get.
  assert (Hb : (0 <=? tricks_played e) && (tricks_played e <? 13) = true)
    by (apply andb_true_iff; split; [apply Z.leb_le | apply Z.ltb_lt]; lia).
  cbv zeta. rewrite Hb, Hx. reflexivity.
Qed.

Lemma clear_one_key p e :
  ~ (0 <= tricks_played e < 13) -> clear_one p e = (e, inl KeyError).
Proof.
  intros Ht. unfold clear_one. rewrite bind_get.
  assert (Hb : (0 <=? tricks_played e) && (tricks_played e <? 13) = false).
  { destruct (0 <=? tricks_played e) eqn:H1; destruct (tricks_played e <? 13) eqn:H2;
      try reflexivity. apply Z.leb_le in H1. apply Z.ltb_lt in H2. lia. }
  cbv zeta. rewrite Hb. reflexivity.
Qed.

(** [_clear_table] on a full table: the four cards go to slot
    [tricks_played] and the table is emptied. *)
Definition cleared (e e' : Env) : Prop :=
  (forall q, table e' q = []) /\ (forall q, hands e' q = hands e q) /\
  (forall i q, played_tricks e' i q =
               if i =? tricks_played e then played_tricks e i q ++ table e q
               else played_tricks e i q).

Lemma clear_go_ok e :
  0 <= tricks_played e < 13 -> (forall q, exists x, table e q = [x]) ->
  cleared e (fst (clear_go players e)).
Proof.
  intros Ht Hs.
  destruct (Hs PN) as [xN HN]; destruct (Hs PE) as [xE HE];
  destruct (Hs PS) as [xS HS]; destruct (Hs PW) as [xW HW].
  cbn [clear_go players].
  erewrite bind_inr by (apply clear_one_ok; [exact Ht | exact HN]).
  erewrite bind_inr by (apply clear_one_ok; [exact Ht | exact HE]).
  erewrite bind_inr by (apply clear_one_ok; [exact Ht | exact HS]).
  erewrite bind_inr by (apply clear_one_ok; [exact Ht | exact HW]).
  cbn. unfold cleared. cbn. split; [|split].
  - intros []; reflexivity.
  - intros; reflexivity.
  - intros i q. destruct (i =? tricks_played e); destruct q;
      rewrite ?HN, ?HE, ?HS, ?HW; simpl; rewrite ?app_nil_r; reflexivity.
Qed.

Lemma bind_inl {A B} (m : M A) (k : A -> M B) e e' x :
  m e = (e', inl x) -> mbind m k e = (e', inl x).
Proof. unfold mbind. intros ->. reflexivity. Qed.

Ltac neutral_at :=
  match goal with
  | |- same_layout ?e (fst (?m ?e)) =>
      let H := fresh in assert (H : neutral m) by solve_neutral; apply H
  end.

Lemma cleared_layout e e' e'' :
  cleared e e' -> same_layout e' e'' -> cleared e e''.
Proof.
  intros [T [H P]] [H' [T' P']]. repeat split; intros.
  - rewrite T'. apply T.
  - rewrite H'. apply H.
  - rewrite P'. apply P.
Qed.

Lemma clear_table_key e :
  ~ (0 <= tricks_played e < 13) -> clear_table e = (e, inl KeyError).
Proof.
  intros Ht. unfold clear_table. apply bind_inl. cbn [clear_go players].
  apply bind_inl. apply clear_one_key. exact Ht.
Qed.

(** [advance] either leaves the cards where they are or clears a full
    table into the slot of the current trick. *)
Lemma advance_shape card e :
  same_layout e (fst (advance card e)) \/
  ((forall q, exists x, table e q = [x]) /\ 0 <= tricks_played e < 13 /\
   cleared e (fst (advance card e))).
Proof.
  unfold advance. rewrite bind_get.
  destruct (n_cards_on_table e <? 4).
  - left. destruct (current_suit e); neutral_at.
  - destruct (get_trick_winner e) as [x|w] eqn:Hw.
    + rewrite bind_lift_inl. left. apply same_layout_refl.
    + rewrite bind_lift_inr.
      destruct (Z_le_gt_dec 0 (tricks_played e)) as [H0|H0];
        [destruct (Z_lt_ge_dec (tricks_played e) 13) as [H1|H1]|].
      * right. pose proof (get_trick_winner_single e w Hw) as Hs.
        split; [exact Hs|]. split; [lia|].
        eapply cleared_layout; [|apply bind_layout; intro; solve_neutral].
        eapply cleared_layout; [|unfold clear_table; apply bind_layout; intro; solve_neutral].
        apply clear_go_ok; [lia | exact Hs].
      * left. erewrite bind_inl by (apply clear_table_key; lia). apply same_layout_refl.
      * left. erewrite bind_inl by (apply clear_table_key; lia). apply same_layout_refl.
Qed.

Lemma play_card_eq p h' card e :
  play_card p h' card e =
  (set_n_cards (n_cards_on_table e + 1)
     (set_table (upd (table e) p (table e p ++ [card]))
        (set_hands (upd (hands e) p h') e)), inr tt).
Proof. reflexivity. Qed.

(** A card removed from the active hand, played, then [advance]d, and any
    layout-neutral tail: the three shapes of a step. *)
Lemma play_advance_shape {B} (e : Env) (h' : list Z) (card : Z)
      (k : option player * player -> M B) :
  list_remove (hands e (active_player e)) card = inr h' ->
  (forall wn, neutral (k wn)) ->
  card_moved e (fst ((play_card (active_player e) h' card >>>
                      wn <- advance card ;; k wn) e)).
Proof.
  intros Hrem Hk. erewrite bind_inr by apply play_card_eq.
  set (e1 := set_n_cards _ _).
  pose proof (bind_layout (advance card) k e1 Hk) as Hl.
  set (e3 := fst (mbind (advance card) k e1)) in *.
  destruct (advance_shape card e1) as [Hs|[Hs [Ht Hc]]].
  - left. exists card, h'.
    destruct (same_layout_trans _ _ _ Hs Hl) as [H [T P]].
    split; [exact Hrem|]. repeat split; intros; [rewrite H | rewrite T | rewrite P]; reflexivity.
  - right. exists card, h'.
    destruct (cleared_layout _ _ _ Hc Hl) as [T [H P]].
    split; [exact Hrem|].
    split; [intros; rewrite H; reflexivity|].
    split; [exact Hs|]. split; [exact T|]. split; [exact Ht|].
    intros i q. rewrite P. reflexivity.
Qed.

Lemma remove_card_some (hand h' : list Z) (a : action) (card : Z) :
  ((exists c, a = ActInt c) \/ (exists w, a = ActList w)) ->
  remove_card hand a = inr (h', card) -> list_remove hand card = inr h'.
Proof.
  intros [[c ->]|[w ->]]; simpl.
  - destruct (list_remove hand c) eqn:Hr; cbn [rbind]; [discriminate|].
    intros [= <- <-]. exact Hr.
  - destruct (np_argmax w); cbn [rbind]; [discriminate|].
    destruct (list_remove hand (Z.of_nat n)) eqn:Hr; cbn [rbind]; [discriminate|].
    intros [= <- <-]. exact Hr.
Qed.

Lemma avail_action_some (av : avail) (a : action) :
  ((exists l c, av = AvInts l /\ a = ActInt c /\ In c l) \/
   (exists ls w, av = AvLists ls /\ a = ActList w /\ In w ls)) ->
  ((exists c, a = ActInt c) \/ (exists w, a = ActList w)).
Proof.
  intros [[l [c [_ [-> _]]]]|[ls [w [_ [-> _]]]]]; [left; exists c | right; exists w]; auto.
Qed.

(** The card [select_card] returns is removed from the active hand. *)
Lemma select_card_remove (cfg : Cfg) (e : Env) (act : action) (r : nat)
      (h' : list Z) (card : Z) (v : bool) :
  select_card cfg e act r = inr (h', card, v) ->
  list_remove (hands e (active_player e)) card = inr h'.
Proof.
  unfold select_card.
  destruct (get_available_actions cfg e (active_player e)) as [|av];
    cbn [rbind]; [discriminate|].
  destruct (py_in act av) as [|b] eqn:Hin; cbn [rbind]; [discriminate|].
  destruct b.
  - destruct (remove_card (hands e (active_player e)) act) as [|[h1 c1]] eqn:Hr;
      cbn [rbind]; [discriminate|].
    intros [= <- <- _]. eapply remove_card_some; [|exact Hr].
    apply avail_action_some with av. apply py_in_true. exact Hin.
  - destruct (choice av r) as [|a] eqn:Hc; cbn [rbind]; [discriminate|].
    destruct (remove_card (hands e (active_player e)) a) as [|[h1 c1]] eqn:Hr;
      cbn [rbind]; [discriminate|].
    intros [= <- <- _]. eapply remove_card_some; [|exact Hr].
    apply avail_action_some with av. eapply choice_in. exact Hc.
Qed.

Lemma select_card_sim_remove (cfg : Cfg) (e : Env) (acts : player -> action) (r : nat)
      (h' : list Z) (card : Z) (valid : vdict) :
  select_card_sim cfg e acts r = inr (h', card, valid) ->
  list_remove (hands e (active_player e)) card = inr h'.
Proof.
  unfold select_card_sim.
  destruct (actions_validity cfg e acts) as [|vd] eqn:Hv; cbn [rbind]; [discriminate|].
  destruct (vget vd (active_player e)) eqn:Hva.
  - destruct (actions_validity_true cfg e acts vd _ Hv Hva) as [av' [_ Hin]].
    destruct (remove_card (hands e (active_player e)) (acts (active_player e)))
      as [|[h1 c1]] eqn:Hr; cbn [rbind]; [discriminate|].
    intros [= <- <- _]. eapply remove_card_some; [|exact Hr].
    apply avail_action_some with av'. apply py_in_true. exact Hin.
  - destruct (get_available_actions_sim cfg e (active_player e)) as [|av];
      cbn [rbind]; [discriminate|].
    destruct (choice av r) as [|a] eqn:Hc; cbn [rbind]; [discriminate|].
    destruct (remove_card (hands e (active_player e)) a) as [|[h1 c1]] eqn:Hr;
      cbn [rbind]; [discriminate|].
    intros [= <- <- _]. eapply remove_card_some; [|exact Hr].
    apply avail_action_some with av. eapply choice_in. exact Hc.
Qed.

Lemma step_shape_refl e : step_shape e e.
Proof. left. apply same_layout_refl. Qed.

Lemma step_shape_layout e e' e'' :
  step_shape e e' -> same_layout e' e'' -> step_shape e e''.
Proof.
  intros [Hs|[[c [h' [R [H [T P]]]]]|[c [h' [R [H [S [T [Ht P]]]]]]]]] [H' [T' P']].
  - left. eapply same_layout_trans; [exact Hs | repeat split; assumption].
  - right; left. exists c, h'. repeat split; [exact R | intros; rewrite H'; apply H
                                            | intros; rewrite T'; apply T
                                            | intros; rewrite P'; apply P].
  - right; right. exists c, h'. repeat split; try assumption; try lia.
    + intros; rewrite H'; apply H.
    + intros; rewrite T'; apply T.
    + intros; rewrite P'; apply P.
Qed.

Lemma game_controller_shape cfg act r e :
  step_shape e (fst (game_controller cfg act r e)).
Proof.
  unfold game_controller. rewrite bind_get.
  destruct (select_card cfg e act r) as [x|[[h' card] v]] eqn:Hsel.
  - rewrite bind_lift_inl. apply step_shape_refl.
  - rewrite bind_lift_inr. right. apply play_advance_shape.
    + eapply select_card_remove. exact Hsel.
    + intro. apply rewards_tail_neutral.
Qed.

Lemma game_controller_sim_shape cfg acts r e :
  step_shape e (fst (game_controller_sim cfg acts r e)).
Proof.
  unfold game_controller_sim. rewrite bind_get.
  destruct (select_card_sim cfg e acts r) as [x|[[h' card] v]] eqn:Hsel.
  - rewrite bind_lift_inl. apply step_shape_refl.
  - rewrite bind_lift_inr. right. apply play_advance_shape.
    + eapply select_card_sim_remove. exact Hsel.
    + intro. apply rewards_tail_sim_neutral.
Qed.

Lemma step_shape_ok cfg act r e : step_shape e (fst (step cfg act r e)).
Proof.
  eapply step_shape_layout; [apply game_controller_shape|].
  unfold step. apply bind_layout. intro. solve_neutral.
Qed.

Lemma step_sim_shape_ok cfg acts r e : step_shape e (fst (step_sim cfg acts r e)).
Proof.
  eapply step_shape_layout; [apply game_controller_sim_shape|].
  unfold step_sim. apply bind_layout. intro. solve_neutral.
Qed.

(** ** Counting the cards *)

Lemma cnt_app a b x : cnt (a ++ b) x = (cnt a x + cnt b x)%nat.
Proof. apply count_occ_app. Qed.

Lemma cnt_players (f : player -> list Z) x :
  cnt (flat_map f players) x = (cnt (f PN) x + cnt (f PE) x + cnt (f PS) x + cnt (f PW) x)%nat.
Proof. simpl. rewrite !cnt_app. simpl. lia. Qed.

Lemma list_remove_cnt l c l' :
  list_remove l c = inr l' -> forall x, cnt l x = (cnt l' x + cnt [c] x)%nat.
Proof.
  revert l'. induction l as [|y r IH]; simpl; intros l' H x; [discriminate|].
  simpl.
  destruct (Z.eqb_spec y c) as [->|Hyc].
  - injection H as <-. destruct (Z.eq_dec c x); lia.
  - destruct (list_remove r c) as [|r'] eqn:Hr; cbn [rbind] in H; [discriminate|].
    injection H as <-. simpl. rewrite (IH r' eq_refl x). simpl.
    destruct (Z.eq_dec y x); destruct (Z.eq_dec c x); lia.
Qed.

Lemma cnt_upd (f g : player -> list Z) p v x :
  (forall q, g q = upd f p v q) ->
  (cnt (flat_map g players) x + cnt (f p) x = cnt (flat_map f players) x + cnt v x)%nat.
Proof.
  intros Hg. rewrite (flat_map_ext g (upd f p v) Hg). rewrite !cnt_players.
  destruct p; unfold upd; simpl; lia.
Qed.

Lemma count_range13 t :
  0 <= t < 13 -> count_occ Z.eq_dec (range 13) t = 1%nat.
Proof.
  intros Ht.
  assert (Hc : forallb (fun t => Nat.eqb (count_occ Z.eq_dec (range 13) t) 1) (range 13) = true)
    by reflexivity.
  rewrite forallb_forall in Hc. apply Nat.eqb_eq, Hc, in_range. exact Ht.
Qed.

Lemma cnt_played_gen (f g : Z -> player -> list Z) (T : player -> list Z) t x ts :
  (forall i q, g i q = if i =? t then f i q ++ T q else f i q) ->
  cnt (flat_map (fun i => flat_map (g i) players) ts) x =
  (cnt (flat_map (fun i => flat_map (f i) players) ts) x +
   count_occ Z.eq_dec ts t * cnt (flat_map T players) x)%nat.
Proof.
  intros Hg. induction ts as [|i ts IH]; [reflexivity|]. cbn [flat_map].
  rewrite !cnt_app, IH.
  assert (Hi : cnt (flat_map (g i) players) x =
               (cnt (flat_map (f i) players) x +
                (if Z.eqb i t then cnt (flat_map T players) x else 0))%nat).
  { rewrite (flat_map_ext (g i) _ (Hg i)). destruct (i =? t).
    - rewrite !cnt_players. cbv beta. rewrite !cnt_app. lia.
    - rewrite Nat.add_0_r. reflexivity. }
  rewrite Hi.
  destruct (Z.eqb_spec i t) as [->|Hit];
    [rewrite count_occ_cons_eq by reflexivity | rewrite count_occ_cons_neq by exact Hit]; lia.
Qed.

Lemma all_cards_cnt e x :
  cnt (all_cards e) x =
  (cnt (flat_map (hands e) players) x + cnt (flat_map (table e) players) x +
   cnt (flat_map (fun t => flat_map (played_tricks e t) players) (range 13)) x)%nat.
Proof. unfold all_cards. rewrite !cnt_app. lia. Qed.

Lemma all_cards_same e e' : same_layout e e' -> all_cards e' = all_cards e.
Proof.
  intros [H [T P]]. unfold all_cards.
  rewrite (flat_map_ext _ _ H), (flat_map_ext _ _ T).
  rewrite (flat_map_ext (fun t => flat_map (played_tricks e' t) players)
                             (fun t => flat_map (played_tricks e t) players)).
  - reflexivity.
  - intro t. apply flat_map_ext. intro q. apply P.
Qed.

Lemma step_shape_cnt e e' : step_shape e e' -> forall x, cnt (all_cards e') x = cnt (all_cards e) x.
Proof.
  intros [Hs|[[c [h' [R [H [T P]]]]]|[c [h' [R [H [S [T [Ht P]]]]]]]]] x.
  - rewrite (all_cards_same _ _ Hs). reflexivity.
  - rewrite !all_cards_cnt.
    pose proof (cnt_upd _ _ _ _ x H) as Hh.
    pose proof (cnt_upd _ _ _ _ x T) as Ht. rewrite cnt_app in Ht.
    pose proof (list_remove_cnt _ _ _ R x) as Hr.
    rewrite (flat_map_ext (fun t => flat_map (played_tricks e' t) players)
                               (fun t => flat_map (played_tricks e t) players))
      by (intro t; apply flat_map_ext; intro q; apply P).
    lia.
  - rewrite !all_cards_cnt.
    pose proof (cnt_upd _ _ _ _ x H) as Hh.
    pose proof (list_remove_cnt _ _ _ R x) as Hr.
    pose proof (cnt_upd (table e) (upd (table e) (active_player e)
                                        (table e (active_player e) ++ [c]))
                        (active_player e) (table e (active_player e) ++ [c]) x
                        (fun q => eq_refl)) as HT.
    rewrite cnt_app in HT.
    rewrite (cnt_played_gen _ _ _ _ x (range 13) P), count_range13 by exact Ht.
    rewrite (cnt_players (table e')), !T, Nat.mul_1_l. change (cnt [] x) with 0%nat. lia.
Qed.

Lemma insert_by_perm k x l : Permutation (insert_by k x l) (x :: l).
Proof.
  induction l as [|y r IH]; simpl; [auto|].
  destruct (k x <=? k y); [auto|].
  eapply perm_trans; [apply perm_skip, IH | apply perm_swap].
Qed.

Lemma sort_by_perm k l : Permutation (sort_by k l) l.
Proof.
  induction l as [|x r IH]; simpl; [auto|].
  eapply perm_trans; [apply insert_by_perm | apply perm_skip, IH].
Qed.

Lemma sort_cards_cnt l x : cnt (sort_cards l) x = cnt l x.
Proof.
  apply (Permutation_count_occ Z.eq_dec). unfold sort_cards.
  eapply perm_trans; apply sort_by_perm.
Qed.

Lemma deal_cnt deck x :
  List.length deck = 52%nat ->
  cnt (flat_map (deal_random_cards deck empty_seats) players) x = cnt deck x.
Proof.
  intros Hl. rewrite cnt_players. unfold deal_random_cards, empty_seats.
  rewrite !sort_cards_cnt. simpl app.
  rewrite <- (firstn_skipn 13 deck) at 5.
  rewrite <- (firstn_skipn 13 (skipn 13 deck)), skipn_skipn.
  rewrite <- (firstn_skipn 13 (skipn (13 + 13) deck)), skipn_skipn.
  rewrite <- (firstn_skipn 13 (skipn (13 + (13 + 13)) deck)), skipn_skipn.
  rewrite (skipn_all2 (n := (13 + (13 + (13 + 13)))%nat)) by lia.
  rewrite !cnt_app. simpl. lia.
Qed.

(** Every reachable state holds each card id as often as [range 52]. *)
Lemma reachable_cnt cfg e : reachable cfg e -> forall x, cnt (all_cards e) x = cnt (range 52) x.
Proof.
  induction 1 as [e0 decl tr cv deck Hd| e act r _ IH | e acts r _ IH]; intro x.
  - unfold reset_none. rewrite bind_inr with (e' := mkEnv (defender_1 (set_players_roles_of decl))
      (deal_random_cards deck empty_seats) empty_seats empty_played zero_won None tr cv
      (set_players_roles_of decl) 0 0 (rewards e0)) (a := tt) by reflexivity.
    simpl fst. rewrite all_cards_cnt. cbn [hands table played_tricks].
    rewrite deal_cnt by (rewrite (Permutation_length Hd); reflexivity).
    apply (Permutation_count_occ Z.eq_dec) with (x := x) in Hd.
    transitivity (cnt deck x); [|exact Hd]. simpl. lia.
  - rewrite (step_shape_cnt _ _ (step_shape_ok cfg act r e)). apply IH.
  - rewrite (step_shape_cnt _ _ (step_sim_shape_ok cfg acts r e)). apply IH.
Qed.

Lemma card_moved_layout e e' e'' :
  card_moved e e' -> same_layout e' e'' -> card_moved e e''.
Proof.
  intros Hm Hs. destruct (step_shape_layout e e' e'' (or_intror Hm) Hs) as [Hl|Hm']; [|exact Hm'].
  exfalso. destruct Hl as [Hh _].
  destruct Hm as [[c [h' [R [H _]]]]|[c [h' [R [H _]]]]];
    pose proof (list_remove_cnt _ _ _ R c) as Hc;
    pose proof (cnt_upd (hands e) (hands e') _ _ c H) as Hu;
    destruct Hs as [Hs _];
    assert (He : forall q, hands e' q = hands e q) by (intro q; rewrite <- Hs; apply Hh);
    rewrite (flat_map_ext (hands e') (hands e) He) in Hu;
    simpl in Hc; destruct (Z.eq_dec c c); lia.
Qed.

Lemma select_fail_step cfg act r e x :
  select_card cfg e act r = inl x -> snd (step cfg act r e) = inl x.
Proof.
  intros Hsel.
  assert (Hg : game_controller cfg act r e = (e, inl x))
    by (unfold game_controller; rewrite bind_get, Hsel; reflexivity).
  unfold step. rewrite (bind_inl _ _ _ _ _ Hg). reflexivity.
Qed.

Lemma select_ok_moved cfg act r e h' card b :
  select_card cfg e act r = inr (h', card, b) ->
  card_moved e (fst (game_controller cfg act r e)).
Proof.
  intros Hsel. unfold game_controller. rewrite bind_get, Hsel, bind_lift_inr.
  apply play_advance_shape.
  - eapply select_card_remove. exact Hsel.
  - intro. apply rewards_tail_neutral.
Qed.

Lemma step_layout cfg act r e :
  same_layout (fst (game_controller cfg act r e)) (fst (step cfg act r e)).
Proof. unfold step. apply bind_layout. intro; solve_neutral. Qed.

Lemma step_returns_moved cfg act r e v :
  snd (step cfg act r e) = inr v -> card_moved e (fst (step cfg act r e)).
Proof.
  intros Hv. destruct (select_card cfg e act r) as [x|[[h' card] b]] eqn:Hsel.
  - rewrite (select_fail_step _ _ _ _ _ Hsel) in Hv. discriminate.
  - eapply card_moved_layout; [apply (select_ok_moved _ _ _ _ _ _ _ Hsel) | apply step_layout].
Qed.

Lemma select_sim_fail_step cfg acts r e x :
  select_card_sim cfg e acts r = inl x -> snd (step_sim cfg acts r e) = inl x.
Proof.
  intros Hsel.
  assert (Hg : game_controller_sim cfg acts r e = (e, inl x))
    by (unfold game_controller_sim; rewrite bind_get, Hsel; reflexivity).
  unfold step_sim. rewrite (bind_inl _ _ _ _ _ Hg). reflexivity.
Qed.

Lemma select_sim_ok_moved cfg acts r e h' card b :
  select_card_sim cfg e acts r = inr (h', card, b) ->
  card_moved e (fst (game_controller_sim cfg acts r e)).
Proof.
  intros Hsel. unfold game_controller_sim. rewrite bind_get, Hsel, bind_lift_inr.
  apply play_advance_shape.
  - eapply select_card_sim_remove. exact Hsel.
  - intro. apply rewards_tail_sim_neutral.
Qed.

Lemma step_sim_layout cfg acts r e :
  same_layout (fst (game_controller_sim cfg acts r e)) (fst (step_sim cfg acts r e)).
Proof. unfold step_sim. apply bind_layout. intro; solve_neutral. Qed.

Lemma step_sim_returns_moved cfg acts r e v :
  snd (step_sim cfg acts r e) = inr v -> card_moved e (fst (step_sim cfg acts r e)).
Proof.
  intros Hv. destruct (select_card_sim cfg e acts r) as [x|[[h' card] b]] eqn:Hsel.
  - rewrite (select_sim_fail_step _ _ _ _ _ Hsel) in Hv. discriminate.
  - eapply card_moved_layout; [apply (select_sim_ok_moved _ _ _ _ _ _ _ Hsel) | apply step_sim_layout].
Qed.
Lemma range_NoDup n : NoDup (range n).
Proof.
  unfold range. assert (Hs : NoDup (seq 0 n)) by apply seq_NoDup.
  induction Hs as [|a l Ha Hl IH]; simpl; constructor; [|exact IH].
  intros Hin. apply in_map_iff in Hin as [y [Hy Hiny]].
  apply Nat2Z.inj in Hy. subst. contradiction.
Qed.

(** C3. Partition of the deck.  In every state reachable from [reset()]
    with a shuffled deck by any sequence of [step] calls (of either
    environment, including calls that raise), the hands, the table and
    [played_tricks] together hold each of the 52 card ids exactly once.
    Every call of [step] either leaves the cards where they were (it
    raised before taking a card) or moves exactly one card from the active
    seat's hand to its table slot, after which, if the trick is complete,
    the four single table cards go to slot [tricks_played] of the history
    and the table is emptied; a call that returns always moves a card. *)
Theorem partition_invariant (cfg : Cfg) :
  (forall e, reachable cfg e -> Permutation (all_cards e) (range 52) /\ NoDup (all_cards e)) /\
  (forall act r e, step_shape e (fst (step cfg act r e))) /\
  (forall act r e v, snd (step cfg act r e) = inr v -> card_moved e (fst (step cfg act r e))) /\
  (forall acts r e, step_shape e (fst (step_sim cfg acts r e))) /\
  (forall acts r e v, snd (step_sim cfg acts r e) = inr v ->
                      card_moved e (fst (step_sim cfg acts r e))).
Proof.
  split; [|split; [|split; [|split]]].
  - intros e He.
    assert (Hp : Permutation (all_cards e) (range 52))
      by (apply (Permutation_count_occ Z.eq_dec);
          exact (reachable_cnt cfg e He)).
    split; [exact Hp|]. eapply Permutation_NoDup; [apply Permutation_sym, Hp | apply range_NoDup].
  - apply step_shape_ok.
  - apply step_returns_moved.
  - apply step_sim_shape_ok.
  - apply step_sim_returns_moved.
Qed.

Definition ex_deal_env : Env :=
  fst (reset_none cfg_int_play PN None 3 (range 52) ex_follow_env).

Lemma partition_invariant_witness :
  Permutation (all_cards (fst (step cfg_int_play (ActInt 0) 0 ex_deal_env))) (range 52) /\
  card_moved ex_deal_env (fst (step cfg_int_play (ActInt 0) 0 ex_deal_env)).
Proof.
  destruct (partition_invariant cfg_int_play) as [Hr [_ [Hm _]]].
  split.
  - apply (proj1 (Hr _ (reach_step cfg_int_play ex_deal_env (ActInt 0) 0%nat
                     (reach_reset cfg_int_play ex_follow_env PN None 3 (range 52)
                        (Permutation_refl _))))).
  - eapply Hm. vm_compute. reflexivity.
Defined.

(** ** Inversion of a step that returns *)

Lemma bind_inv {A B} (m : M A) (k : A -> M B) e e' b :
  mbind m k e = (e', inr b) -> exists e1 a, m e = (e1, inr a) /\ k a e1 = (e', inr b).
Proof. unfold mbind. destruct (m e) as [e1 [x|a]]; [discriminate | eauto]. Qed.

(** The attributes that clearing the table leaves alone. *)
Definition kept (e e' : Env) : Prop :=
  rewards e' = rewards e /\ players_roles e' = players_roles e /\
  contract_value e' = contract_value e /\ active_player e' = active_player e /\
  tricks_played e' = tricks_played e /\ won_tricks e' = won_tricks e /\
  trump e' = trump e /\ hands e' = hands e.

Lemma kept_refl e : kept e e.
Proof. repeat split. Qed.

Lemma kept_trans e1 e2 e3 : kept e1 e2 -> kept e2 e3 -> kept e1 e3.
Proof.
  intros (A1 & B1 & C1 & D1 & E1 & F1 & G1 & H1) (A2 & B2 & C2 & D2 & E2 & F2 & G2 & H2).
  repeat split; congruence.
Qed.

Lemma clear_one_kept p e e' u : clear_one p e = (e', inr u) -> kept e e'.
Proof.
  unfold clear_one. rewrite bind_get. cbv zeta.
  destruct ((0 <=? tricks_played e) && (tricks_played e <? 13)); [|discriminate].
  destruct (list_pop (table e p)) as [x|[tl c]]; [discriminate|].
  rewrite bind_lift_inr. cbn. intros [= <- _]. repeat split.
Qed.

Lemma clear_go_kept ps e e' u : clear_go ps e = (e', inr u) -> kept e e'.
Proof.
  revert e. induction ps as [|p ps IH]; simpl; intros e H.
  - injection H as <- _. apply kept_refl.
  - apply bind_inv in H as [e1 [a [H1 H2]]].
    eapply kept_trans; [eapply clear_one_kept; exact H1 | eapply IH; exact H2].
Qed.

Lemma clear_table_kept e e' u : clear_table e = (e', inr u) -> kept e e'.
Proof.
  unfold clear_table. intros H. apply bind_inv in H as [e1 [a [H1 H2]]].
  apply clear_go_kept in H1. cbn in H2. injection H2 as <- _.
  destruct H1 as (A1 & B1 & C1 & D1 & E1 & F1 & G1 & H1). repeat split; assumption.
Qed.

Lemma advance_inv card e e2 wn :
  advance card e = (e2, inr wn) ->
  rewards e2 = rewards e /\ players_roles e2 = players_roles e /\
  contract_value e2 = contract_value e /\ active_player e2 = active_player e /\
  ((n_cards_on_table e < 4 /\ wn = (None, get_next_player (active_player e)) /\
    tricks_played e2 = tricks_played e /\ won_tricks e2 = won_tricks e) \/
   (4 <= n_cards_on_table e /\ exists w, get_trick_winner e = inr w /\ wn = (Some w, w) /\
    tricks_played e2 = tricks_played e + 1 /\
    won_tricks e2 = upd (upd (won_tricks e) w (won_tricks e w + 1)) (partner w)
                        (upd (won_tricks e) w (won_tricks e w + 1) (partner w) + 1))).
Proof.
  unfold advance. rewrite bind_get. destruct (Z.ltb_spec (n_cards_on_table e) 4) as [Hn|Hn].
  - destruct (current_suit e); cbn; intros [= <- <-]; repeat split; left; auto.
  - destruct (get_trick_winner e) as [x|w] eqn:Hw; [rewrite bind_lift_inl; discriminate|].
    rewrite bind_lift_inr. intros H. apply bind_inv in H as [ec [u [Hc H]]].
    apply clear_table_kept in Hc. destruct Hc as (A1 & B1 & C1 & D1 & E1 & F1 & G1 & H1).
    cbn in H. injection H as <- <-. cbn. repeat split; try assumption.
    right. split; [exact Hn|]. exists w. rewrite E1, F1. auto.
Qed.

Lemma play_card_fields p h' card e :
  let e1 := fst (play_card p h' card e) in
  rewards e1 = rewards e /\ players_roles e1 = players_roles e /\
  contract_value e1 = contract_value e /\ active_player e1 = active_player e /\
  tricks_played e1 = tricks_played e /\ won_tricks e1 = won_tricks e /\
  n_cards_on_table e1 = n_cards_on_table e + 1.
Proof. repeat split. Qed.

Lemma game_controller_inv cfg act r e e' u :
  game_controller cfg act r e = (e', inr u) ->
  exists h' card valid wn e2 rw,
    select_card cfg e act r = inr (h', card, valid) /\
    advance card (fst (play_card (active_player e) h' card e)) = (e2, inr wn) /\
    get_rewards cfg e2 (fst wn) valid = inr rw /\
    e' = set_active (snd wn) (set_rewards rw e2).
Proof.
  unfold game_controller. rewrite bind_get. cbv zeta.
  destruct (select_card cfg e act r) as [x|[[h' card] valid]] eqn:Hs;
    [rewrite bind_lift_inl; discriminate|].
  rewrite bind_lift_inr. intros H.
  apply bind_inv in H as [e1 [a [H1 H]]]. rewrite play_card_eq in H1. injection H1 as <- _.
  apply bind_inv in H as [e2 [wn [H2 H]]]. rewrite bind_get in H.
  destruct (get_rewards cfg e2 (fst wn) valid) as [x|rw] eqn:Hr; [rewrite bind_lift_inl in H; discriminate|].
  rewrite bind_lift_inr in H. cbn in H. injection H as <- _.
  exists h', card, valid, wn, e2, rw. repeat split; assumption.
Qed.

Lemma game_controller_sim_inv cfg acts r e e' u :
  game_controller_sim cfg acts r e = (e', inr u) ->
  exists h' card valid wn e2 rw,
    select_card_sim cfg e acts r = inr (h', card, valid) /\
    advance card (fst (play_card (active_player e) h' card e)) = (e2, inr wn) /\
    get_rewards_sim cfg e2 (fst wn) valid = inr rw /\
    e' = set_active (snd wn) (set_rewards rw e2).
Proof.
  unfold game_controller_sim. rewrite bind_get. cbv zeta.
  destruct (select_card_sim cfg e acts r) as [x|[[h' card] valid]] eqn:Hs;
    [rewrite bind_lift_inl; discriminate|].
  rewrite bind_lift_inr. intros H.
  apply bind_inv in H as [e1 [a [H1 H]]]. rewrite play_card_eq in H1. injection H1 as <- _.
  apply bind_inv in H as [e2 [wn [H2 H]]]. rewrite bind_get in H.
  destruct (get_rewards_sim cfg e2 (fst wn) valid) as [x|rw] eqn:Hr;
    [rewrite bind_lift_inl in H; discriminate|].
  rewrite bind_lift_inr in H. cbn in H. injection H as <- _.
  exists h', card, valid, wn, e2, rw. repeat split; assumption.
Qed.

Lemma step_inv cfg act r e e' v :
  step cfg act r e = (e', inr v) ->
  game_controller cfg act r e = (e', inr tt) /\
  v = PTuple [get_player_observation cfg e' (active_player e');
              rewards_get (rewards e') (active_player e');
              PBool (match hands e' (active_player e') with [] => true | _ => false end);
              PDict []].
Proof.
  unfold step. intros H. apply bind_inv in H as [e1 [[] [H1 H]]].
  cbn in H. injection H as <- <-. auto.
Qed.

Lemma step_sim_inv cfg acts r e e' v :
  step_sim cfg acts r e = (e', inr v) ->
  game_controller_sim cfg acts r e = (e', inr tt) /\
  v = PTuple [seat_dict (get_player_observation cfg e');
              py_rewards (rewards e');
              seat_dict (fun q => PBool (match hands e' q with [] => true | _ => false end));
              PDict []].
Proof.
  unfold step_sim. intros H. apply bind_inv in H as [e1 [[] [H1 H]]].
  cbn in H. injection H as <- <-. auto.
Qed.

(** The rewards and the attributes they depend on after a returning
    [BridgeEnv.step]: [e2] is the state [_get_rewards] sees. *)
Lemma step_rewards_inv cfg act r e e' v :
  step cfg act r e = (e', inr v) ->
  exists h' card valid (wn : option player * player) e2,
    select_card cfg e act r = inr (h', card, valid) /\
    get_rewards cfg e2 (fst wn) valid = inr (rewards e') /\
    rewards e2 = rewards e /\ players_roles e2 = players_roles e /\
    contract_value e2 = contract_value e /\ active_player e2 = active_player e /\
    players_roles e' = players_roles e /\ contract_value e' = contract_value e /\
    won_tricks e' = won_tricks e2 /\ tricks_played e' = tricks_played e2 /\
    ((n_cards_on_table e + 1 < 4 /\ fst wn = None /\ tricks_played e2 = tricks_played e) \/
     (4 <= n_cards_on_table e + 1 /\ exists w, fst wn = Some w /\
        tricks_played e2 = tricks_played e + 1 /\
        get_trick_winner (fst (play_card (active_player e) h' card e)) = inr w)).
Proof.
  intros H. apply step_inv in H as [H _].
  apply game_controller_inv in H as (h' & card & valid & wn & e2 & rw & Hs & Ha & Hr & ->).
  apply advance_inv in Ha as (A & B & C & D & Hw).
  exists h', card, valid, wn, e2. cbn.
  repeat split; try assumption; try congruence.
  destruct Hw as [(Hn & -> & Ht & _)|(Hn & w & Hw & -> & Ht & _)]; cbn in *.
  - left. auto.
  - right. split; [exact Hn|]. exists w. auto.
Qed.

Lemma step_sim_rewards_inv cfg acts r e e' v :
  step_sim cfg acts r e = (e', inr v) ->
  exists h' card valid (wn : option player * player) e2,
    select_card_sim cfg e acts r = inr (h', card, valid) /\
    get_rewards_sim cfg e2 (fst wn) valid = inr (rewards e') /\
    rewards e2 = rewards e /\ players_roles e2 = players_roles e /\
    contract_value e2 = contract_value e /\ active_player e2 = active_player e /\
    players_roles e' = players_roles e /\ contract_value e' = contract_value e /\
    won_tricks e' = won_tricks e2 /\ tricks_played e' = tricks_played e2 /\
    ((n_cards_on_table e + 1 < 4 /\ fst wn = None /\ tricks_played e2 = tricks_played e) \/
     (4 <= n_cards_on_table e + 1 /\ exists w, fst wn = Some w /\
        tricks_played e2 = tricks_played e + 1 /\
        get_trick_winner (fst (play_card (active_player e) h' card e)) = inr w)).
Proof.
  intros H. apply step_sim_inv in H as [H _].
  apply game_controller_sim_inv in H as (h' & card & valid & wn & e2 & rw & Hs & Ha & Hr & ->).
  apply advance_inv in Ha as (A & B & C & D & Hw).
  exists h', card, valid, wn, e2. cbn.
  repeat split; try assumption; try congruence.
  destruct Hw as [(Hn & -> & Ht & _)|(Hn & w & Hw & -> & Ht & _)]; cbn in *.
  - left. auto.
  - right. split; [exact Hn|]. exists w. auto.
Qed.

(** ** Dicts *)

Lemma player_eqb_refl p : player_eqb p p = true.
Proof. unfold player_eqb. destruct (player_eq_dec p p); congruence. Qed.

Lemma player_eqb_neq p q : p <> q -> player_eqb p q = false.
Proof. unfold player_eqb. destruct (player_eq_dec p q); congruence. Qed.

Lemma dget_dset_eq d k v : dget (dset d k v) k = inr v.
Proof.
  induction d as [|[k' v'] d IH]; simpl.
  - rewrite player_eqb_refl. reflexivity.
  - destruct (player_eqb k' k) eqn:E; simpl; rewrite E; [reflexivity | exact IH].
Qed.

Lemma dget_dset_neq d k v q : q <> k -> dget (dset d k v) q = dget d q.
Proof.
  intros Hq. induction d as [|[k' v'] d IH]; simpl.
  - rewrite player_eqb_neq by congruence. reflexivity.
  - destruct (player_eqb k' k) eqn:E; simpl.
    + unfold player_eqb in E |- *. destruct (player_eq_dec k' k); [|discriminate]. subst.
      destruct (player_eq_dec k q); [congruence | reflexivity].
    + destruct (player_eqb k' q); [reflexivity | exact IH].
Qed.

Lemma keys_dset d k v : In k (map fst d) -> map fst (dset d k v) = map fst d.
Proof.
  induction d as [|[k' v'] d IH]; simpl; [contradiction|]. intros Hk.
  unfold player_eqb. destruct (player_eq_dec k' k) as [->|Hne]; simpl; [reflexivity|].
  rewrite IH; [reflexivity|]. destruct Hk; [congruence | assumption].
Qed.

Ltac dict_simpl :=
  repeat first [ rewrite dget_dset_eq | rewrite dget_dset_neq by discriminate ].

Lemma mapR_keys (f : player -> res (player * bool)) (l : list player) (l' : vdict) :
  (forall p y, f p = inr y -> fst y = p) -> mapR f l = inr l' -> map fst l' = l.
Proof.
  intros Hf. revert l'. induction l as [|p l IH]; simpl; intros l' H.
  - injection H as <-. reflexivity.
  - destruct (f p) as [|y] eqn:Hp; [discriminate|]. cbn [rbind] in H.
    destruct (mapR f l) as [|ys] eqn:Hl; [discriminate|]. cbn [rbind] in H.
    injection H as <-. simpl. rewrite (Hf p y Hp), (IH ys eq_refl). reflexivity.
Qed.

(** [chosen_cards_are_valid] has the keys N, E, S, W in this order. *)
Lemma actions_validity_keys cfg e acts valid :
  actions_validity cfg e acts = inr valid -> map fst valid = players.
Proof.
  apply mapR_keys. intros p y.
  destruct (get_available_actions_sim cfg e p); cbn [rbind]; [discriminate|].
  destruct (py_in (acts p) a); cbn [rbind]; [discriminate|]. intros [= <-]. reflexivity.
Qed.

Lemma invalid_fold_get (valid : vdict) (base : rdict) (p : player) :
  map fst valid = players ->
  dget (fold_left (fun (r : rdict) (pv : player * bool) =>
                     if snd pv then r else dset r (fst pv) (-1000)) valid base) p =
  if vget valid p then dget base p else inr (-1000).
Proof.
  intros Hk.
  destruct valid as [|[q1 b1] [|[q2 b2] [|[q3 b3] [|[q4 b4] [|]]]]]; simpl in Hk;
    try discriminate.
  injection Hk as -> -> -> ->.
  destruct b1, b2, b3, b4, p; simpl; dict_simpl; reflexivity.
Qed.

Lemma select_card_sim_valid cfg e acts r h' card valid :
  select_card_sim cfg e acts r = inr (h', card, valid) -> actions_validity cfg e acts = inr valid.
Proof.
  unfold select_card_sim. destruct (actions_validity cfg e acts) as [|vd]; cbn [rbind]; [discriminate|].
  destruct (vget vd (active_player e)).
  - destruct (remove_card _ _); cbn [rbind]; [discriminate|]. intros [= _ _ <-]. reflexivity.
  - destruct (get_available_actions_sim _ _ _); cbn [rbind]; [discriminate|].
    destruct (choice _ _); cbn [rbind]; [discriminate|].
    destruct (remove_card _ _); cbn [rbind]; [discriminate|]. intros [= _ _ <-]. reflexivity.
Qed.

Lemma contract_rewards_dget e rw b d p :
  players_roles e = set_players_roles_of d ->
  dget (contract_rewards e rw b) p = inr (contract_outcome e b p).
Proof.
  intros Hr. unfold contract_rewards, contract_outcome. rewrite Hr.
  destruct (_ <=? _); destruct d, p; simpl; dict_simpl; reflexivity.
Qed.

(** ** Rewards of the modes "win" and "win_points" *)

Lemma outcome_congr e e' b p :
  players_roles e' = players_roles e -> contract_value e' = contract_value e ->
  won_tricks e' = won_tricks e -> contract_outcome e' b p = contract_outcome e b p.
Proof. intros A B C. unfold contract_outcome. rewrite A, B, C. reflexivity. Qed.

Lemma mode_win_match cfg A (x y z w : A) :
  reward_mode cfg = RWin \/ reward_mode cfg = RWinPoints ->
  match reward_mode cfg with
  | RWin | RWinPoints => x | RWinTricks => y | RPlayCards => z | ROther _ => w end = x.
Proof. intros [Hm|Hm]; rewrite Hm; reflexivity. Qed.

Lemma win_rewards_sim_part cfg d acts r e e' v :
  reward_mode cfg = RWin \/ reward_mode cfg = RWinPoints ->
  players_roles e = set_players_roles_of d ->
  step_sim cfg acts r e = (e', inr v) ->
  exists valid, actions_validity cfg e acts = inr valid /\
    forall p, dget (rewards e') p =
      if vget valid p then
        (if tricks_played e' =? 13 then inr (contract_outcome e' 0 p) else dget (rewards e) p)
      else inr (-1000).
Proof.
  intros Hm Hro H.
  apply step_sim_rewards_inv in H
    as (h' & card & valid & wn & e2 & Hs & Hg & R2 & O2 & V2 & _ & O' & V' & W' & T' & _).
  exists valid. split; [eapply select_card_sim_valid; eauto|]. intros p.
  pose proof (actions_validity_keys _ _ _ _ (select_card_sim_valid _ _ _ _ _ _ _ Hs)) as Hk.
  unfold get_rewards_sim in Hg.
  cbv zeta in Hg. rewrite (mode_win_match cfg _ _ _ _ _ Hm) in Hg.
  rewrite T'.
  destruct (tricks_played e2 =? 13); cbn [rbind] in Hg; injection Hg as <-;
    rewrite invalid_fold_get by exact Hk; destruct (vget valid p); try reflexivity.
  - rewrite (contract_rewards_dget e2 _ 0 d p) by congruence.
    f_equal. symmetry. apply outcome_congr; congruence.
  - rewrite R2. reflexivity.
Qed.

Lemma win_rewards_bridge_part cfg d act r e e' v h0 c0 :
  reward_mode cfg = RWin \/ reward_mode cfg = RWinPoints ->
  players_roles e = set_players_roles_of d ->
  select_card cfg e act r = inr (h0, c0, true) ->
  step cfg act r e = (e', inr v) ->
  (tricks_played e' <> 12 -> rewards e' = rewards e) /\
  (tricks_played e' = 12 -> exists bonus, (bonus = 0 \/ bonus = 1) /\
     forall p, dget (rewards e') p = inr (contract_outcome e' bonus p)).
Proof.
  intros Hm Hro Hv H.
  apply step_rewards_inv in H
    as (h' & card & valid & wn & e2 & Hs & Hg & R2 & O2 & V2 & _ & O' & V' & W' & T' & _).
  rewrite Hv in Hs. injection Hs as _ _ <-.
  unfold get_rewards in Hg. rewrite T'.
  cbv zeta in Hg. rewrite (mode_win_match cfg _ _ _ _ _ Hm) in Hg.
  destruct (Z.eqb_spec (tricks_played e2) 12) as [E|E].
  - split; [contradiction|intros _].
    destruct (lookahead e2 (fst wn)) as [|ntw]; cbn [rbind] in Hg; [discriminate|].
    injection Hg as <-.
    exists (if player_eqb ntw (dummy (players_roles e2)) then 1 else 0).
    split; [destruct (player_eqb _ _); auto|]. intros p.
    rewrite (contract_rewards_dget e2 _ _ d p) by congruence.
    f_equal. symmetry. apply outcome_congr; congruence.
  - split; [intros _|contradiction]. cbn [rbind] in Hg. injection Hg as <-. exact R2.
Qed.

(** C4 (corrected). In modes "win" and "win_points": in
    [BridgeSimultaneousActionsEnv], a seat whose action is valid keeps its
    previous reward, except on the step after which [tricks_played] is 13
    (the 13th trick resolved), where it gets the contract outcome (declarer
    and dummy 1 and the defenders 0 when [won_tricks[declarer] >=
    contract_value + 6], else the reverse); a seat with an invalid action
    gets -1000.  In [BridgeEnv], a valid step leaves the rewards as they were
    unless [tricks_played] is 12 after it, and then assigns the contract
    outcome with a lookahead bonus of 0 or 1 added to the declarer's trick
    count: the outcome comes after the 12th trick, before the last one. *)
Theorem win_rewards (cfg : Cfg) (d : player) :
  reward_mode cfg = RWin \/ reward_mode cfg = RWinPoints ->
  (forall acts r e e' v,
     players_roles e = set_players_roles_of d ->
     step_sim cfg acts r e = (e', inr v) ->
     exists valid, actions_validity cfg e acts = inr valid /\
       forall p, dget (rewards e') p =
         if vget valid p then
           (if tricks_played e' =? 13 then inr (contract_outcome e' 0 p) else dget (rewards e) p)
         else inr (-1000)) /\
  (forall act r e e' v h0 c0,
     players_roles e = set_players_roles_of d ->
     select_card cfg e act r = inr (h0, c0, true) ->
     step cfg act r e = (e', inr v) ->
     (tricks_played e' <> 12 -> rewards e' = rewards e) /\
     (tricks_played e' = 12 -> exists bonus, (bonus = 0 \/ bonus = 1) /\
        forall p, dget (rewards e') p = inr (contract_outcome e' bonus p))).
Proof.
  intros Hm. split.
  - intros acts r e e' v Hro H. exact (win_rewards_sim_part cfg d acts r e e' v Hm Hro H).
  - intros act r e e' v h0 c0 Hro Hv H.
    exact (win_rewards_bridge_part cfg d act r e e' v h0 c0 Hm Hro Hv H).
Qed.

Definition cfg_int_points : Cfg := mkCfg AMInteger OMInteger RWinPoints.

Definition out_val (x : res pyval) : pyval :=
  match x with inr v => v | inl _ => PNone end.

(** The last card of the deal: South (declarer, contract 3) leads the
    ace of clubs onto 2, 3 and 4 of clubs; the declarer's side had 8 tricks. *)
Definition ex_last_env : Env :=
  mkEnv PS (fun p => match p with PS => [48] | _ => [] end)
        (fun p => match p with PN => [8] | PE => [4] | PW => [0] | PS => [] end)
        empty_played
        (fun p => match p with PN | PS => 8 | _ => 4 end)
        (Some 0) None 3 (set_players_roles_of PS) 3 12 initial_rewards.

Definition acts_last (p : player) : action :=
  match p with PS => ActInt 48 | _ => ActInt (-1) end.

(** The same before the 12th trick is resolved, one card more in each hand. *)
Definition ex_twelve_env : Env :=
  mkEnv PS (fun p => match p with PS => [48; 1] | PN => [5] | PE => [9] | PW => [13] end)
        (fun p => match p with PN => [8] | PE => [4] | PW => [0] | PS => [] end)
        empty_played
        (fun p => match p with PN | PS => 8 | _ => 3 end)
        (Some 0) None 3 (set_players_roles_of PS) 3 11 initial_rewards.

Lemma win_rewards_witness :
  rewards (fst (step_sim cfg_int_points acts_last 0 ex_last_env)) =
    [(PN, 1); (PE, 0); (PS, 1); (PW, 0)] /\
  (exists valid, actions_validity cfg_int_points ex_last_env acts_last = inr valid /\
     forall p, dget (rewards (fst (step_sim cfg_int_points acts_last 0 ex_last_env))) p =
       if vget valid p then
         (if tricks_played (fst (step_sim cfg_int_points acts_last 0 ex_last_env)) =? 13
          then inr (contract_outcome (fst (step_sim cfg_int_points acts_last 0 ex_last_env)) 0 p)
          else dget (rewards ex_last_env) p)
       else inr (-1000)).
Proof.
  split; [vm_compute; reflexivity|].
  destruct (win_rewards cfg_int_points PS (or_intror eq_refl)) as [Hs _].
  apply (Hs acts_last 0%nat ex_last_env _
            (out_val (snd (step_sim cfg_int_points acts_last 0 ex_last_env))) eq_refl).
  vm_compute. reflexivity.
Defined.

(** In [BridgeEnv], "win_points": South's ace wins the 12th trick and the
    declarer's side already gets 1 while every seat still holds a card. *)
Lemma win_rewards_counterexample :
  let e' := fst (step cfg_int_points (ActInt 48) 0 ex_twelve_env) in
  (exists v, snd (step cfg_int_points (ActInt 48) 0 ex_twelve_env) = inr v) /\
  tricks_played e' = 12 /\ hands e' PS = [1] /\
  rewards e' = [(PN, 1); (PE, 0); (PS, 1); (PW, 0)].
Proof. vm_compute. split; [eexists; reflexivity|]. repeat split. Qed.

(** ** The invalid-action penalty *)

Lemma invalid_penalty_bridge cfg act r e e' v h0 c0 :
  select_card cfg e act r = inr (h0, c0, false) ->
  step cfg act r e = (e', inr v) ->
  dget (rewards e') (active_player e) =
    inr (match reward_mode cfg with RWinPoints => -1000 | _ => -2 end).
Proof.
  intros Hv H.
  apply step_rewards_inv in H
    as (h' & card & valid & wn & e2 & Hs & Hg & _ & _ & _ & V2 & _).
  rewrite Hv in Hs. injection Hs as _ _ <-.
  unfold get_rewards in Hg. cbv zeta in Hg.
  destruct (match reward_mode cfg with
            | RWin | RWinPoints => _ | RWinTricks => _ | RPlayCards => _ | ROther _ => _ end)
    as [|base]; cbn [rbind] in Hg; [discriminate|].
  injection Hg as <-. rewrite <- V2. apply dget_dset_eq.
Qed.

Lemma invalid_penalty_sim cfg acts r e e' v valid p :
  actions_validity cfg e acts = inr valid -> vget valid p = false ->
  step_sim cfg acts r e = (e', inr v) ->
  dget (rewards e') p = inr (-1000).
Proof.
  intros Hav Hp H.
  apply step_sim_rewards_inv in H as (h' & card & valid' & wn & e2 & Hs & Hg & _).
  pose proof (select_card_sim_valid _ _ _ _ _ _ _ Hs) as Hav'.
  rewrite Hav in Hav'. injection Hav' as <-.
  unfold get_rewards_sim in Hg. cbv zeta in Hg.
  destruct (match reward_mode cfg with
            | RWin | RWinPoints => _ | RWinTricks => _ | RPlayCards => _ | ROther _ => _ end)
    as [|base]; cbn [rbind] in Hg; [discriminate|].
  injection Hg as <-. rewrite invalid_fold_get by (eapply actions_validity_keys; eauto).
  rewrite Hp. reflexivity.
Qed.

(** C5 (corrected). In [BridgeEnv], a step whose proposed action is not in
    the legal set gives the acting seat -1000 in "win_points" and -2 in
    every other mode, whatever card is substituted and whatever the mode
    computed.  In [BridgeSimultaneousActionsEnv], every seat whose action is
    invalid gets -1000, in every reward mode. *)
Theorem invalid_penalty (cfg : Cfg) :
  (forall act r e e' v h0 c0,
     select_card cfg e act r = inr (h0, c0, false) ->
     step cfg act r e = (e', inr v) ->
     dget (rewards e') (active_player e) =
       inr (match reward_mode cfg with RWinPoints => -1000 | _ => -2 end)) /\
  (forall acts r e e' v valid p,
     actions_validity cfg e acts = inr valid -> vget valid p = false ->
     step_sim cfg acts r e = (e', inr v) ->
     dget (rewards e') p = inr (-1000)).
Proof.
  split.
  - intros act r e e' v h0 c0. apply invalid_penalty_bridge.
  - intros acts r e e' v valid p. apply invalid_penalty_sim.
Qed.

(** East leads after the deal with North declarer and proposes the 2 of
    clubs, which East does not hold. *)
Definition acts_bad_lead (p : player) : action :=
  match p with PE => ActInt 0 | _ => ActInt (-1) end.

Lemma invalid_penalty_witness :
  dget (rewards (fst (step cfg_int_play (ActInt 0) 0 ex_deal_env))) PE = inr (-2) /\
  dget (rewards (fst (step_sim cfg_int_play acts_bad_lead 0 ex_deal_env))) PE = inr (-1000).
Proof.
  destruct (invalid_penalty cfg_int_play) as [Hb Hs]. split.
  - apply (Hb (ActInt 0) 0%nat ex_deal_env _
              (out_val (snd (step cfg_int_play (ActInt 0) 0 ex_deal_env)))
              [20; 24; 13; 17; 21; 25; 14; 18; 22; 15; 19; 23] 16);
      vm_compute; reflexivity.
  - apply (Hs acts_bad_lead 0%nat ex_deal_env _
              (out_val (snd (step_sim cfg_int_play acts_bad_lead 0 ex_deal_env)))
              [(PN, true); (PE, false); (PS, true); (PW, true)] PE);
      vm_compute; reflexivity.
Defined.

(** In [BridgeSimultaneousActionsEnv], mode "play_cards", the invalid lead
    costs -1000, not -2. *)
Lemma invalid_penalty_counterexample :
  reward_mode cfg_int_play = RPlayCards /\
  actions_validity cfg_int_play ex_deal_env acts_bad_lead =
    inr [(PN, true); (PE, false); (PS, true); (PW, true)] /\
  (exists v, snd (step_sim cfg_int_play acts_bad_lead 0 ex_deal_env) = inr v) /\
  dget (rewards (fst (step_sim cfg_int_play acts_bad_lead 0 ex_deal_env))) PE = inr (-1000).
Proof. vm_compute. split; [reflexivity|]. split; [reflexivity|]. split; [eexists; reflexivity|reflexivity]. Qed.

(** ** Rewards of the mode "win_tricks" *)

Lemma dget_dset d k v q : dget (dset d k v) q = if player_eqb q k then inr v else dget d q.
Proof.
  unfold player_eqb at 1. destruct (player_eq_dec q k) as [->|Hne].
  - apply dget_dset_eq.
  - apply dget_dset_neq. exact Hne.
Qed.

Lemma trick_rewards_dget rw w p : dget (trick_rewards rw w) p = inr (trick_outcome w p).
Proof. unfold trick_rewards, trick_outcome. destruct w, p; rewrite ?dget_dset; reflexivity. Qed.

Lemma lookahead_bump rw w q p :
  dget (dset (dset (trick_rewards rw w) q (trick_outcome w q + 1)) (partner q)
             (trick_outcome w (partner q) + 1)) p =
  inr (trick_outcome w p + trick_outcome q p).
Proof.
  rewrite !dget_dset, trick_rewards_dget.
  unfold trick_outcome. destruct w, q, p; reflexivity.
Qed.

Lemma win_tricks_bridge_part cfg act r e e' v h0 c0 :
  reward_mode cfg = RWinTricks ->
  select_card cfg e act r = inr (h0, c0, true) ->
  step cfg act r e = (e', inr v) ->
  (n_cards_on_table e + 1 < 4 -> rewards e' = rewards e) /\
  (4 <= n_cards_on_table e + 1 -> exists w,
     get_trick_winner (fst (play_card (active_player e) h0 c0 e)) = inr w /\
     (tricks_played e' <> 12 -> forall p, dget (rewards e') p = inr (trick_outcome w p)) /\
     (tricks_played e' = 12 -> exists q, forall p,
        dget (rewards e') p = inr (trick_outcome w p + trick_outcome q p))).
Proof.
  intros Hm Hv H.
  apply step_rewards_inv in H
    as (h' & card & valid & wn & e2 & Hs & Hg & R2 & _ & _ & _ & _ & _ & _ & T' & Hc).
  rewrite Hv in Hs. injection Hs as <- <- <-.
  unfold get_rewards in Hg. cbv zeta in Hg. rewrite Hm in Hg.
  destruct Hc as [(Hn & Hw & Ht)|(Hn & w & Hw & Ht & Hwin)].
  - split; [intros _|intros; lia]. rewrite Hw in Hg. cbn [rbind] in Hg.
    injection Hg as <-. exact R2.
  - split; [intros; lia|intros _]. exists w. split; [exact Hwin|].
    rewrite Hw, R2 in Hg. rewrite T'.
    destruct (Z.eqb_spec (tricks_played e2) 12) as [E|E].
    + split; [contradiction|intros _].
      destruct (lookahead e2 (Some w)) as [|q]; cbn [rbind] in Hg; [discriminate|].
      rewrite trick_rewards_dget in Hg. cbn [rbind] in Hg.
      rewrite dget_dset_neq, trick_rewards_dget in Hg by (destruct q; discriminate).
      cbn [rbind] in Hg. injection Hg as <-.
      exists q. intros p. apply lookahead_bump.
    + split; [intros _|contradiction]. cbn [rbind] in Hg. injection Hg as <-.
      intros p. apply trick_rewards_dget.
Qed.

Lemma win_tricks_sim_part cfg acts r e e' v :
  reward_mode cfg = RWinTricks ->
  step_sim cfg acts r e = (e', inr v) ->
  exists h c valid, select_card_sim cfg e acts r = inr (h, c, valid) /\
    (n_cards_on_table e + 1 < 4 -> forall p, dget (rewards e') p =
       if vget valid p then dget (rewards e) p else inr (-1000)) /\
    (4 <= n_cards_on_table e + 1 -> exists w,
       get_trick_winner (fst (play_card (active_player e) h c e)) = inr w /\
       forall p, dget (rewards e') p =
         if vget valid p then inr (trick_outcome w p) else inr (-1000)).
Proof.
  intros Hm H.
  apply step_sim_rewards_inv in H
    as (h' & card & valid & wn & e2 & Hs & Hg & R2 & _ & _ & _ & _ & _ & _ & _ & Hc).
  exists h', card, valid. split; [exact Hs|].
  pose proof (actions_validity_keys _ _ _ _ (select_card_sim_valid _ _ _ _ _ _ _ Hs)) as Hk.
  unfold get_rewards_sim in Hg. cbv zeta in Hg. rewrite Hm in Hg.
  destruct Hc as [(Hn & Hw & _)|(Hn & w & Hw & _ & Hwin)].
  - split; [intros _ p|intros; lia]. rewrite Hw in Hg. cbn [rbind] in Hg.
    injection Hg as <-. rewrite invalid_fold_get by exact Hk. rewrite R2. reflexivity.
  - split; [intros; lia|intros _]. exists w. split; [exact Hwin|]. intros p.
    rewrite Hw in Hg. cbn [rbind] in Hg. injection Hg as <-.
    rewrite invalid_fold_get by exact Hk. rewrite trick_rewards_dget. reflexivity.
Qed.

(** C6 (corrected). In mode "win_tricks", for a step with a valid action:
    a step that does not complete a trick leaves the rewards as they were;
    a step that completes a trick won by [w] gives [w] and its partner 1
    and the other pair 0.  In [BridgeEnv], when [tricks_played] is 12 after
    the completed trick (the 12th, not the 13th), a lookahead picks a seat
    [q] and [q] and its partner get 1 more.  [BridgeSimultaneousActionsEnv]
    has no lookahead, and there a seat with an invalid action gets -1000. *)
Theorem win_tricks_rewards (cfg : Cfg) :
  reward_mode cfg = RWinTricks ->
  (forall act r e e' v h0 c0,
     select_card cfg e act r = inr (h0, c0, true) ->
     step cfg act r e = (e', inr v) ->
     (n_cards_on_table e + 1 < 4 -> rewards e' = rewards e) /\
     (4 <= n_cards_on_table e + 1 -> exists w,
        get_trick_winner (fst (play_card (active_player e) h0 c0 e)) = inr w /\
        (tricks_played e' <> 12 -> forall p, dget (rewards e') p = inr (trick_outcome w p)) /\
        (tricks_played e' = 12 -> exists q, forall p,
           dget (rewards e') p = inr (trick_outcome w p + trick_outcome q p)))) /\
  (forall acts r e e' v,
     step_sim cfg acts r e = (e', inr v) ->
     exists h c valid, select_card_sim cfg e acts r = inr (h, c, valid) /\
       (n_cards_on_table e + 1 < 4 -> forall p, dget (rewards e') p =
          if vget valid p then dget (rewards e) p else inr (-1000)) /\
       (4 <= n_cards_on_table e + 1 -> exists w,
          get_trick_winner (fst (play_card (active_player e) h c e)) = inr w /\
          forall p, dget (rewards e') p =
            if vget valid p then inr (trick_outcome w p) else inr (-1000))).
Proof.
  intros Hm. split.
  - intros act r e e' v h0 c0. apply win_tricks_bridge_part. exact Hm.
  - intros acts r e e' v. apply win_tricks_sim_part. exact Hm.
Qed.

Definition cfg_int_tricks : Cfg := mkCfg AMInteger OMInteger RWinTricks.

(** [BridgeEnv.step] repeated, with the index 0 for [random.choice]. *)
Fixpoint run_steps (cfg : Cfg) (acts : list action) (e : Env) : Env :=
  match acts with
  | [] => e
  | a :: r => run_steps cfg r (fst (step cfg a 0 e))
  end.

(** The first trick after the deal: East 6, South 9, West ace, North 2 of
    clubs; West wins it and leads again. *)
Definition ex_first_trick : list action := [ActInt 16; ActInt 28; ActInt 48; ActInt 0].

Lemma win_tricks_rewards_witness :
  let e3 := run_steps cfg_int_tricks (firstn 3 ex_first_trick) ex_deal_env in
  let e' := fst (step cfg_int_tricks (ActInt 0) 0 e3) in
  (n_cards_on_table e3 + 1 < 4 -> rewards e' = rewards e3) /\
  (4 <= n_cards_on_table e3 + 1 -> exists w,
     get_trick_winner (fst (play_card (active_player e3)
        [4; 8; 12; 1; 5; 9; 2; 6; 10; 3; 7; 11] 0 e3)) = inr w /\
     (tricks_played e' <> 12 -> forall p, dget (rewards e') p = inr (trick_outcome w p)) /\
     (tricks_played e' = 12 -> exists q, forall p,
        dget (rewards e') p = inr (trick_outcome w p + trick_outcome q p))).
Proof.
  destruct (win_tricks_rewards cfg_int_tricks eq_refl) as [Hb _].
  apply (Hb (ActInt 0) 0%nat _ _
            (out_val (snd (step cfg_int_tricks (ActInt 0) 0
               (run_steps cfg_int_tricks (firstn 3 ex_first_trick) ex_deal_env))))
            [4; 8; 12; 1; 5; 9; 2; 6; 10; 3; 7; 11] 0);
    vm_compute; reflexivity.
Defined.

(** West leads the 2nd trick with its ace of clubs: no trick completes,
    yet East and West keep the 1 of the first trick. *)
Lemma win_tricks_rewards_counterexample :
  let e4 := run_steps cfg_int_tricks ex_first_trick ex_deal_env in
  let e' := fst (step cfg_int_tricks (ActInt 40) 0 e4) in
  active_player e4 = PW /\ n_cards_on_table e4 = 0 /\
  (exists v, snd (step cfg_int_tricks (ActInt 40) 0 e4) = inr v) /\
  n_cards_on_table e' = 1 /\
  rewards e' = [(PN, 0); (PE, 1); (PS, 0); (PW, 1)].
Proof. vm_compute. repeat split. eexists. reflexivity. Qed.

(** ** Rewards of the mode "play_cards" *)

Lemma valid_fold_get (valid : vdict) (base : rdict) (p : player) :
  map fst valid = players ->
  dget (fold_left (fun (r : rdict) (pv : player * bool) =>
                     if snd pv then dset r (fst pv) 0 else r) valid base) p =
  if vget valid p then inr 0 else dget base p.
Proof.
  intros Hk.
  destruct valid as [|[q1 b1] [|[q2 b2] [|[q3 b3] [|[q4 b4] [|]]]]]; simpl in Hk;
    try discriminate.
  injection Hk as -> -> -> ->.
  destruct b1, b2, b3, b4, p; simpl; dict_simpl; reflexivity.
Qed.

Lemma play_cards_bridge_part cfg act r e e' v h0 c0 b :
  reward_mode cfg = RPlayCards ->
  select_card cfg e act r = inr (h0, c0, b) ->
  step cfg act r e = (e', inr v) ->
  forall p, dget (rewards e') p =
    if player_eqb p (active_player e) then inr (if b then 1 else -2) else dget (rewards e) p.
Proof.
  intros Hm Hv H p.
  apply step_rewards_inv in H
    as (h' & card & valid & wn & e2 & Hs & Hg & R2 & _ & _ & V2 & _).
  rewrite Hv in Hs. injection Hs as _ _ <-.
  unfold get_rewards in Hg. cbv zeta in Hg. rewrite Hm in Hg. rewrite <- V2, <- R2.
  destruct b; cbn [rbind] in Hg; injection Hg as <-; apply dget_dset.
Qed.

Lemma play_cards_sim_part cfg acts r e e' v :
  reward_mode cfg = RPlayCards ->
  step_sim cfg acts r e = (e', inr v) ->
  exists valid, actions_validity cfg e acts = inr valid /\
    forall p, dget (rewards e') p = inr (if vget valid p then 0 else -1000).
Proof.
  intros Hm H.
  apply step_sim_rewards_inv in H as (h' & card & valid & wn & e2 & Hs & Hg & _).
  pose proof (select_card_sim_valid _ _ _ _ _ _ _ Hs) as Hav.
  exists valid. split; [exact Hav|]. intros p.
  pose proof (actions_validity_keys _ _ _ _ Hav) as Hk.
  unfold get_rewards_sim in Hg. cbv zeta in Hg. rewrite Hm in Hg. cbn [rbind] in Hg.
  injection Hg as <-. rewrite invalid_fold_get, valid_fold_get by exact Hk.
  destruct (vget valid p); reflexivity.
Qed.

(** C7 (corrected). In mode "play_cards": in [BridgeEnv], a step gives the
    acting seat 1 when its proposed action was in the legal set and -2
    otherwise, and every other seat keeps its previous reward; in
    [BridgeSimultaneousActionsEnv], every seat whose action is valid gets 0
    and every seat whose action is invalid gets -1000. *)
Theorem play_cards_rewards (cfg : Cfg) :
  reward_mode cfg = RPlayCards ->
  (forall act r e e' v h0 c0 b,
     select_card cfg e act r = inr (h0, c0, b) ->
     step cfg act r e = (e', inr v) ->
     forall p, dget (rewards e') p =
       if player_eqb p (active_player e) then inr (if b then 1 else -2)
       else dget (rewards e) p) /\
  (forall acts r e e' v,
     step_sim cfg acts r e = (e', inr v) ->
     exists valid, actions_validity cfg e acts = inr valid /\
       forall p, dget (rewards e') p = inr (if vget valid p then 0 else -1000)).
Proof.
  intros Hm. split.
  - intros act r e e' v h0 c0 b. apply play_cards_bridge_part. exact Hm.
  - intros acts r e e' v. apply play_cards_sim_part. exact Hm.
Qed.

(** East then South play valid cards after the deal; East keeps its 1. *)
Lemma play_cards_rewards_witness :
  let e1 := run_steps cfg_int_play (firstn 1 ex_first_trick) ex_deal_env in
  dget (rewards (fst (step cfg_int_play (ActInt 28) 0 e1))) PS = inr 1 /\
  dget (rewards (fst (step cfg_int_play (ActInt 28) 0 e1))) PE = dget (rewards e1) PE.
Proof.
  destruct (play_cards_rewards cfg_int_play eq_refl) as [Hb _].
  pose proof (Hb (ActInt 28) 0%nat
            (run_steps cfg_int_play (firstn 1 ex_first_trick) ex_deal_env)
            (fst (step cfg_int_play (ActInt 28) 0
               (run_steps cfg_int_play (firstn 1 ex_first_trick) ex_deal_env)))
            (out_val (snd (step cfg_int_play (ActInt 28) 0
               (run_steps cfg_int_play (firstn 1 ex_first_trick) ex_deal_env))))
            [32; 36; 29; 33; 37; 26; 30; 34; 38; 27; 31; 35] 28 true
            ltac:(vm_compute; reflexivity) ltac:(vm_compute; reflexivity)) as H.
  split; [exact (H PS) | exact (H PE)].
Defined.

(** In [BridgeEnv], after East's and South's valid plays East, not acting,
    still has 1 instead of 0. *)
Lemma play_cards_rewards_counterexample :
  let e2 := run_steps cfg_int_play (firstn 2 ex_first_trick) ex_deal_env in
  let e1 := run_steps cfg_int_play (firstn 1 ex_first_trick) ex_deal_env in
  select_card cfg_int_play ex_deal_env (ActInt 16) 0 =
    inr ([20; 24; 13; 17; 21; 25; 14; 18; 22; 15; 19; 23], 16, true) /\
  active_player e1 = PS /\
  select_card cfg_int_play e1 (ActInt 28) 0 =
    inr ([32; 36; 29; 33; 37; 26; 30; 34; 38; 27; 31; 35], 28, true) /\
  rewards e2 = [(PN, 0); (PE, 1); (PS, 1); (PW, 0)].
Proof. vm_compute. repeat split. Qed.

(** ** What [step] returns *)

Lemma keys_players_dset d k v : map fst d = players -> map fst (dset d k v) = players.
Proof. intros H. rewrite keys_dset; [exact H|]. rewrite H. destruct k; simpl; tauto. Qed.

Ltac keys_dsets := repeat (apply keys_players_dset).

Lemma keys_fold_left (f : rdict -> player * bool -> rdict) (valid : vdict) (base : rdict) :
  (forall r pv, map fst r = players -> map fst (f r pv) = players) ->
  map fst base = players -> map fst (fold_left f valid base) = players.
Proof.
  intros Hf. revert base. induction valid as [|pv valid IH]; simpl; intros base Hb.
  - exact Hb.
  - apply IH, Hf, Hb.
Qed.

Lemma get_rewards_sim_keys cfg e tw valid rw :
  map fst (rewards e) = players -> get_rewards_sim cfg e tw valid = inr rw ->
  map fst rw = players.
Proof.
  intros Hk H. unfold get_rewards_sim in H. cbv zeta in H.
  destruct (match reward_mode cfg with
            | RWin | RWinPoints => _ | RWinTricks => _ | RPlayCards => _ | ROther _ => _ end)
    as [|base] eqn:Hb; cbn [rbind] in H; [discriminate|].
  injection H as <-.
  apply keys_fold_left; [intros r [q b] Hr; simpl; destruct b; [exact Hr|keys_dsets; exact Hr]|].
  destruct (reward_mode cfg); try discriminate.
  - destruct (tricks_played e =? 13); injection Hb as <-; [|exact Hk].
    unfold contract_rewards. destruct (_ <=? _); keys_dsets; exact Hk.
  - destruct tw; injection Hb as <-; [|exact Hk]. unfold trick_rewards. keys_dsets. exact Hk.
  - destruct (tricks_played e =? 13); injection Hb as <-; [|exact Hk].
    unfold contract_rewards. destruct (_ <=? _); keys_dsets; exact Hk.
  - injection Hb as <-.
    apply keys_fold_left; [intros r [q b] Hr; simpl; destruct b; [keys_dsets|]; exact Hr|exact Hk].
Qed.

Definition seat_keys : list pyval := map (fun q => PStr (player_name q)) players.

Lemma step_sim_keys cfg acts r e e' v :
  map fst (rewards e) = players -> step_sim cfg acts r e = (e', inr v) ->
  map fst (rewards e') = players.
Proof.
  intros Hk H.
  apply step_sim_rewards_inv in H as (h' & card & valid & wn & e2 & Hs & Hg & R2 & _).
  eapply get_rewards_sim_keys; [|exact Hg]. rewrite R2. exact Hk.
Qed.

(** C8 (corrected). [BridgeEnv.step] returns a 4-tuple (observation,
    reward, done, info) whose second component is the single reward of
    the next active seat ([self.rewards.get(active_player)]), never a map;
    [BridgeSimultaneousActionsEnv.step] returns (observations, rewards,
    dones, info) where the three maps have one entry per seat, in the order
    N, E, S, W (for the rewards map, as long as [self.rewards] has them). *)
Theorem step_return_shape (cfg : Cfg) :
  (forall act r e e' v,
     step cfg act r e = (e', inr v) ->
     exists o x b, v = PTuple [o; x; PBool b; PDict []] /\
       o = get_player_observation cfg e' (active_player e') /\
       x = rewards_get (rewards e') (active_player e') /\ forall kv, x <> PDict kv) /\
  (forall acts r e e' v,
     map fst (rewards e) = players ->
     step_sim cfg acts r e = (e', inr v) ->
     exists obs rw dn, v = PTuple [PDict obs; PDict rw; PDict dn; PDict []] /\
       map fst obs = seat_keys /\ map fst rw = seat_keys /\ map fst dn = seat_keys /\
       map fst (rewards e') = players).
Proof.
  split.
  - intros act r e e' v H. apply step_inv in H as [_ ->].
    do 3 eexists. split; [reflexivity|]. split; [reflexivity|]. split; [reflexivity|].
    intros kv. unfold rewards_get. destruct (dget _ _); discriminate.
  - intros acts r e e' v Hk H. pose proof (step_sim_keys _ _ _ _ _ _ Hk H) as Hk'.
    apply step_sim_inv in H as [_ ->]. unfold seat_dict, py_rewards.
    do 3 eexists. split; [reflexivity|].
    split; [reflexivity|]. split; [|split; [reflexivity|exact Hk']].
    rewrite map_map. simpl. rewrite <- (map_map fst (fun q => PStr (player_name q))), Hk'.
    reflexivity.
Qed.

Lemma step_return_shape_witness :
  exists obs rw dn,
    snd (step_sim cfg_int_play acts_bad_lead 0 ex_deal_env) =
      inr (PTuple [PDict obs; PDict rw; PDict dn; PDict []]) /\
    map fst obs = seat_keys /\ map fst rw = seat_keys /\ map fst dn = seat_keys /\
    map fst (rewards (fst (step_sim cfg_int_play acts_bad_lead 0 ex_deal_env))) = players.
Proof.
  destruct (step_return_shape cfg_int_play) as [_ Hs].
  destruct (Hs acts_bad_lead 0%nat ex_deal_env _
               (out_val (snd (step_sim cfg_int_play acts_bad_lead 0 ex_deal_env)))
               eq_refl ltac:(vm_compute; reflexivity))
    as (obs & rw & dn & Hv & Ho & Hr & Hd & Hk).
  exists obs, rw, dn. split; [|split; [exact Ho|split; [exact Hr|split; [exact Hd|exact Hk]]]].
  rewrite <- Hv. vm_compute. reflexivity.
Defined.

(** [BridgeEnv.step] after the deal: the reward component is the integer 0
    of South, the next seat to play, not a map from seats to rewards. *)
Lemma step_return_shape_counterexample :
  exists o b, snd (step cfg_int_play (ActInt 16) 0 ex_deal_env) =
    inr (PTuple [o; PInt 0; PBool b; PDict []]).
Proof. vm_compute. do 2 eexists. reflexivity. Qed.

(** ** Errors at [reset] and at [step] *)

Lemma list_remove_in (l : list Z) (c : Z) : In c l -> exists l', list_remove l c = inr l'.
Proof.
  induction l as [|y l IH]; simpl; [contradiction|]. intros Hc.
  destruct (Z.eqb_spec y c) as [->|Hne]; [eauto|].
  destruct IH as [l' Hl']; [destruct Hc; [congruence|assumption]|].
  rewrite Hl'. cbn [rbind]. eauto.
Qed.

Lemma legal_cards_ok (e : Env) (p : player) :
  hands e p <> [] ->
  (current_suit e = None \/ exists s, current_suit e = Some s /\ 0 <= s <= 3) ->
  exists l, legal_cards e p = inr l /\ l <> [].
Proof.
  intros Hh Hs. unfold legal_cards, get_suit_cards.
  destruct Hs as [->|[s [-> Hs]]]; [eauto|].
  replace ((0 <=? s) && (s <=? 3)) with true by (symmetry; apply andb_true_iff; lia).
  cbn [rbind]. destruct (filter _ _) as [|x sc] eqn:Hf; simpl;
    (eexists; split; [reflexivity|]); [exact Hh | discriminate].
Qed.

Lemma mapR_one_hot_ok (l : list Z) :
  (forall x, In x l -> 0 <= x < 52) -> exists ls, mapR one_hot l = inr ls /\ length ls = length l.
Proof.
  induction l as [|x l IH]; simpl; intros Hr; [eauto|].
  destruct (one_hot_argmax x) as [v [Hv _]]; [auto|]. rewrite Hv. cbn [rbind].
  destruct IH as [ls [Hls Hlen]]; [auto|]. rewrite Hls. cbn [rbind].
  exists (v :: ls). simpl. auto.
Qed.

Lemma encode_avail_ok (m : amode) (l : list Z) :
  l <> [] -> (forall x, In x l -> 0 <= x < 52) ->
  exists av, encode_avail m l = inr av /\
    ((exists x r, av = AvInts (x :: r)) \/ (exists w r, av = AvLists (w :: r))).
Proof.
  intros Hne Hr. destruct m; simpl.
  - destruct l as [|x r]; [congruence|]. eexists. split; [reflexivity|]. left. eauto.
  - destruct (mapR_one_hot_ok l Hr) as [ls [Hls Hlen]]. rewrite Hls. cbn [rbind].
    destruct ls as [|w r]; [destruct l; simpl in Hlen; congruence|].
    eexists. split; [reflexivity|]. right. eauto.
Qed.

Lemma avail_member_removable (m : amode) (l hand : list Z) (av : avail) (a : action) :
  encode_avail m l = inr av ->
  (forall x, In x l -> In x hand) -> (forall x, In x l -> 0 <= x < 52) ->
  ((exists l' c, av = AvInts l' /\ a = ActInt c /\ In c l') \/
   (exists ls w, av = AvLists ls /\ a = ActList w /\ In w ls)) ->
  exists h' c, remove_card hand a = inr (h', c).
Proof.
  intros He Hincl Hr [[l' [c [-> [-> Hc]]]]|[ls [w [-> [-> Hw]]]]].
  - destruct m; simpl in He; [|destruct (mapR one_hot l); discriminate].
    injection He as <-. destruct (list_remove_in hand c (Hincl c Hc)) as [h' Hh'].
    simpl. rewrite Hh'. cbn [rbind]. eauto.
  - destruct m; simpl in He; [discriminate|].
    destruct (mapR one_hot l) as [|ls'] eqn:Hm; cbn [rbind] in He; [discriminate|].
    injection He as <-.
    destruct (mapR_one_hot_in l _ w Hm Hw) as [c [Hc Hoh]].
    destruct (one_hot_argmax c (Hr c Hc)) as [v [Hv Harg]].
    rewrite Hoh in Hv. injection Hv as <-.
    simpl. rewrite Harg. cbn [rbind]. rewrite Z2Nat.id by (pose proof (Hr c Hc); lia).
    destruct (list_remove_in hand c (Hincl c Hc)) as [h' Hh']. rewrite Hh'. cbn [rbind]. eauto.
Qed.

Lemma py_in_total (a : action) (av : avail) :
  ((exists x r, av = AvInts (x :: r)) \/ (exists w r, av = AvLists (w :: r))) ->
  exists b, py_in a av = inr b.
Proof. intros [[x [r ->]]|[w [r ->]]]; destruct a; simpl; eauto. Qed.

Lemma choice_total (av : avail) (r : nat) :
  ((exists x l, av = AvInts (x :: l)) \/ (exists w l, av = AvLists (w :: l))) ->
  exists a, choice av r = inr a.
Proof. intros [[x [l ->]]|[w [l ->]]]; simpl; eauto. Qed.

(** With a non-empty active hand of real cards and a real led suit,
    [select_card] never raises, whatever the proposed action. *)
Lemma select_card_total (cfg : Cfg) (e : Env) (act : action) (r : nat) :
  hands e (active_player e) <> [] ->
  (forall x, In x (hands e (active_player e)) -> 0 <= x < 52) ->
  (current_suit e = None \/ exists s, current_suit e = Some s /\ 0 <= s <= 3) ->
  exists h' c b, select_card cfg e act r = inr (h', c, b).
Proof.
  intros Hh Hr Hs.
  destruct (legal_cards_ok e (active_player e) Hh Hs) as [l [Hl Hne]].
  pose proof (legal_cards_incl e _ l Hl) as Hincl.
  assert (Hlr : forall x, In x l -> 0 <= x < 52) by auto.
  destruct (encode_avail_ok (action_space_mode cfg) l Hne Hlr) as [av [Hav Hshape]].
  assert (Hga : get_available_actions cfg e (active_player e) = inr av)
    by (unfold get_available_actions; rewrite Hl; exact Hav).
  unfold select_card. rewrite Hga. cbn [rbind].
  destruct (py_in_total act av Hshape) as [b Hb]. rewrite Hb. cbn [rbind].
  destruct b.
  - destruct (avail_member_removable _ l _ av act Hav Hincl Hlr (py_in_true act av Hb))
      as [h' [c Hc]].
    rewrite Hc. cbn [rbind]. eauto.
  - destruct (choice_total av r Hshape) as [a Ha]. rewrite Ha. cbn [rbind].
    destruct (avail_member_removable _ l _ av a Hav Hincl Hlr (choice_in av r a Ha))
      as [h' [c Hc]].
    rewrite Hc. cbn [rbind]. eauto.
Qed.

(** Two illegal proposals give the same step. *)
Lemma step_invalid_same (cfg : Cfg) (act1 act2 : action) (r : nat) (e : Env) (av : avail) :
  get_available_actions cfg e (active_player e) = inr av ->
  py_in act1 av = inr false -> py_in act2 av = inr false ->
  step cfg act1 r e = step cfg act2 r e.
Proof.
  intros Hav H1 H2.
  assert (Hs : select_card cfg e act1 r = select_card cfg e act2 r)
    by (unfold select_card; rewrite Hav; cbn [rbind]; rewrite H1, H2; reflexivity).
  unfold step, game_controller. unfold mbind at 1 3, mget at 1 2. cbv beta iota.
  unfold mbind at 1 3, lift at 1 2. rewrite Hs. reflexivity.
Qed.

Lemma add_cards_new_err v x : add_cards_new v = inl x -> x = AssertionError.
Proof. destruct v; simpl; congruence. Qed.

Lemma reset_init_bad_seat cfg st s decl tr cv deck e :
  is_player st = Some s -> parse_player s = None ->
  snd (reset_init cfg st decl tr cv deck e) = inl Exception_.
Proof. intros Hs Hp. unfold reset_init, set_players_roles. rewrite Hs, Hp. reflexivity. Qed.

Lemma reset_init_bad_hand cfg st decl tr cv deck e ro p :
  set_players_roles (match is_player st with Some s => s | None => player_name decl end) = inr ro ->
  init_hand st p = HOther ->
  snd (reset_init cfg st decl tr cv deck e) = inl AssertionError.
Proof.
  intros Hro Hp. unfold reset_init. rewrite Hro.
  destruct (add_cards_new (init_hand st PN)) as [xN|hN] eqn:EN;
    [cbn; f_equal; eapply add_cards_new_err; eauto|].
  destruct (add_cards_new (init_hand st PE)) as [xE|hE] eqn:EE;
    [cbn; f_equal; eapply add_cards_new_err; eauto|].
  destruct (add_cards_new (init_hand st PS)) as [xS|hS] eqn:ES;
    [cbn; f_equal; eapply add_cards_new_err; eauto|].
  destruct (add_cards_new (init_hand st PW)) as [xW|hW] eqn:EW;
    [cbn; f_equal; eapply add_cards_new_err; eauto|].
  exfalso. destruct p; rewrite Hp in *; discriminate.
Qed.

Lemma reset_init_accepts cfg st decl tr cv deck e ro :
  set_players_roles (match is_player st with Some s => s | None => player_name decl end) = inr ro ->
  (forall p, init_hand st p <> HOther) ->
  (exists v, snd (reset_init cfg st decl tr cv deck e) = inr v) /\
  (is_hands st <> None -> is_hands st <> Some [] ->
   forall p l, add_cards_new (init_hand st p) = inr l ->
   hands (fst (reset_init cfg st decl tr cv deck e)) p = l).
Proof.
  intros Hro Hok.
  assert (Hg : forall p, exists l, add_cards_new (init_hand st p) = inr l).
  { intros p. specialize (Hok p). destruct (init_hand st p); cbn;
      [eexists; reflexivity | eexists; reflexivity | congruence]. }
  destruct (Hg PN) as [hN EN], (Hg PE) as [hE EE], (Hg PS) as [hS ES], (Hg PW) as [hW EW].
  unfold reset_init. rewrite Hro. cbn [bind_get modify mbind lift mret mget snd fst].
  split.
  - unfold mbind, lift, modify, mget, mret. cbn. rewrite EN, EE, ES, EW. cbn.
    eexists; reflexivity.
  - intros Hn He p l Hl.
    unfold mbind, lift, modify, mget, mret. cbn. rewrite EN, EE, ES, EW. cbn.
    destruct (is_hands st) as [[|x xs]|]; [congruence | | congruence].
    destruct p; cbn; congruence.
Qed.

Lemma select_card_illegal_flag (cfg : Cfg) (e : Env) (act : action) (r : nat)
      (av : avail) (h' : list Z) (card : Z) (v : bool) :
  get_available_actions cfg e (active_player e) = inr av ->
  py_in act av = inr false ->
  select_card cfg e act r = inr (h', card, v) -> v = false.
Proof.
  intros Hav Hin. unfold select_card. cbv zeta. rewrite Hav. cbn [rbind]. rewrite Hin. cbn [rbind].
  destruct (choice av r) as [|a]; cbn [rbind]; [discriminate|].
  destruct (remove_card (hands e (active_player e)) a) as [|[h1 c1]]; cbn [rbind];
    [discriminate|].
  intros [= _ _ <-]. reflexivity.
Qed.

Definition ex_bad_hands : init_state :=
  mkInit (Some "N"%string) (Some None) (Some 3) (Some [("N"%string, HList [0; 0; 99])]).

(** C9 (corrected). [BridgeEnv.reset(initial_state)] raises an
    [Exception] when the seat given as ['player'] is not one of N, E, S, W,
    and an [AssertionError] when a hand is neither an int nor a list; it
    checks nothing else about the hands: with a valid seat and every hand an
    int or a list, [reset] returns without error whatever the hands hold
    (wrong count, duplicates, ids outside 0..51), and given hands are
    installed as they are.  At step time a proposed card never makes the
    card selection raise when the active seat holds real cards (ids 0..51)
    and the led suit is a real suit or none; the card played is always a
    legal card, an illegal proposal is flagged invalid, and two illegal
    proposals give exactly the same step: an illegal proposal is replaced by
    a random legal card. *)
Theorem reset_step_errors (cfg : Cfg) :
  (forall st s decl tr cv deck e,
     is_player st = Some s -> parse_player s = None ->
     snd (reset_init cfg st decl tr cv deck e) = inl Exception_) /\
  (forall st decl tr cv deck e ro p,
     set_players_roles (match is_player st with Some s => s | None => player_name decl end)
       = inr ro ->
     init_hand st p = HOther ->
     snd (reset_init cfg st decl tr cv deck e) = inl AssertionError) /\
  (forall st decl tr cv deck e ro,
     set_players_roles (match is_player st with Some s => s | None => player_name decl end)
       = inr ro ->
     (forall p, init_hand st p <> HOther) ->
     (exists v, snd (reset_init cfg st decl tr cv deck e) = inr v) /\
     (is_hands st <> None -> is_hands st <> Some [] ->
      forall p l, add_cards_new (init_hand st p) = inr l ->
      hands (fst (reset_init cfg st decl tr cv deck e)) p = l)) /\
  (forall act r e,
     hands e (active_player e) <> [] ->
     (forall x, In x (hands e (active_player e)) -> 0 <= x < 52) ->
     (current_suit e = None \/ exists s, current_suit e = Some s /\ 0 <= s <= 3) ->
     exists h' c b, select_card cfg e act r = inr (h', c, b)) /\
  (forall act r e h' c b,
     (forall x, In x (hands e (active_player e)) -> 0 <= x < 52) ->
     select_card cfg e act r = inr (h', c, b) ->
     (exists l, legal_cards e (active_player e) = inr l /\ In c l) /\
     (forall av, get_available_actions cfg e (active_player e) = inr av ->
                 py_in act av = inr false -> b = false)) /\
  (forall act1 act2 r e av,
     get_available_actions cfg e (active_player e) = inr av ->
     py_in act1 av = inr false -> py_in act2 av = inr false ->
     step cfg act1 r e = step cfg act2 r e).
Proof.
  split; [|split; [|split; [|split; [|split]]]].
  - intros st s decl tr cv deck e. apply reset_init_bad_seat.
  - intros st decl tr cv deck e ro p. apply reset_init_bad_hand.
  - intros st decl tr cv deck e ro. apply reset_init_accepts.
  - intros act r e. apply select_card_total.
  - intros act r e h' c b Hrange Hsel. split.
    + destruct (select_card_in_legal cfg e act r h' c b Hrange Hsel) as [l [Hl [Hc _]]].
      exists l. split; assumption.
    + intros av Hav Hin. eapply select_card_illegal_flag; eassumption.
  - intros act1 act2 r e av. apply step_invalid_same.
Qed.

Definition ex_bad_seat : init_state := mkInit (Some "X"%string) None None None.

Lemma reset_step_errors_witness :
  snd (reset_init cfg_int_play ex_bad_seat PN None 3 (range 52) ex_follow_env) = inl Exception_ /\
  (exists v, snd (reset_init cfg_int_play ex_bad_hands PN None 3 (range 52) ex_follow_env) = inr v) /\
  hands (fst (reset_init cfg_int_play ex_bad_hands PN None 3 (range 52) ex_follow_env)) PN
    = [0; 0; 99] /\
  (exists l, legal_cards ex_deal_env (active_player ex_deal_env) = inr l /\ In 16 l) /\
  step cfg_int_play (ActInt 0) 0 ex_deal_env = step cfg_int_play (ActInt 99) 0 ex_deal_env.
Proof.
  destruct (reset_step_errors cfg_int_play) as [H1 [_ [H3 [_ [H5 H6]]]]].
  split; [|split; [|split; [|split]]].
  - apply (H1 ex_bad_seat "X"%string); reflexivity.
  - eapply (H3 ex_bad_hands PN None 3 (range 52) ex_follow_env);
      [vm_compute; reflexivity | intros []; vm_compute; discriminate].
  - eapply (H3 ex_bad_hands PN None 3 (range 52) ex_follow_env);
      [vm_compute; reflexivity | intros []; vm_compute; discriminate
      | vm_compute; discriminate | vm_compute; discriminate | vm_compute; reflexivity].
  - refine (proj1 (H5 (ActInt 99) 0%nat ex_deal_env
              [20; 24; 13; 17; 21; 25; 14; 18; 22; 15; 19; 23] 16 false _ _));
      [intros x Hx; vm_compute in Hx; repeat (destruct Hx as [<-|Hx]; [lia|]); destruct Hx
      | vm_compute; reflexivity].
  - apply (H6 (ActInt 0) (ActInt 99) 0%nat ex_deal_env
              (AvInts [16; 20; 24; 13; 17; 21; 25; 14; 18; 22; 15; 19; 23]));
      vm_compute; reflexivity.
Defined.

Lemma reset_step_errors_counterexample :
  (exists v, snd (reset_init cfg_int_play ex_bad_hands PN None 3 (range 52) ex_follow_env) = inr v) /\
  hands (fst (reset_init cfg_int_play ex_bad_hands PN None 3 (range 52) ex_follow_env)) PN =
    [0; 0; 99] /\
  hands (fst (reset_init cfg_int_play ex_bad_hands PN None 3 (range 52) ex_follow_env)) PE = [].
Proof. vm_compute. split; [eexists; reflexivity|]. split; reflexivity. Qed.

(** ** The simultaneous environment in "multi_binary" action mode *)

Lemma cards_in_range_check (l : list Z) :
  forallb (fun x => (0 <=? x) && (x <? 52)) l = true -> forall x, In x l -> 0 <= x < 52.
Proof.
  intros H x Hx. rewrite forallb_forall in H. specialize (H x Hx).
  apply andb_true_iff in H as [H1 H2]. apply Z.leb_le in H1. apply Z.ltb_lt in H2. lia.
Qed.

Lemma legal_cards_inr (e : Env) (p : player) :
  (current_suit e = None \/ exists s, current_suit e = Some s /\ 0 <= s <= 3) ->
  exists l, legal_cards e p = inr l.
Proof.
  intros Hs. unfold legal_cards, get_suit_cards.
  destruct Hs as [->|[s [-> Hs]]]; [eauto|].
  replace ((0 <=? s) && (s <=? 3)) with true by (symmetry; apply andb_true_iff; lia).
  cbn [rbind]. destruct (Nat.ltb _ 1); eauto.
Qed.

Lemma mapR_first_error {B} (f : player -> res B) (l : list player) (q : player) :
  (forall p, In p l -> f p = inl TypeError \/ exists y, f p = inr y) ->
  In q l -> f q = inl TypeError -> exists x, mapR f l = inl x /\ x = TypeError.
Proof.
  intros Hf Hq Hfq. induction l as [|p l IH]; [contradiction|]. simpl.
  destruct (Hf p (or_introl eq_refl)) as [Hp|[y Hp]]; rewrite Hp; cbn [rbind]; [eauto|].
  destruct Hq as [<-|Hq]; [congruence|].
  destruct IH as [x [Hx ->]]; [intros; apply Hf; right; assumption|assumption|].
  rewrite Hx. cbn [rbind]. eauto.
Qed.

Lemma multi_binary_validity_fails (cfg : Cfg) (e : Env) (acts : player -> action) :
  action_space_mode cfg = AMMultiBinary ->
  (forall x, In x (hands e (active_player e)) -> 0 <= x < 52) ->
  (current_suit e = None \/ exists s, current_suit e = Some s /\ 0 <= s <= 3) ->
  actions_validity cfg e acts = inl TypeError.
Proof.
  intros Hm Hr Hs.
  destruct (legal_cards_inr e (active_player e) Hs) as [l Hl].
  pose proof (legal_cards_incl e _ l Hl) as Hincl.
  destruct (mapR_one_hot_ok l (fun x Hx => Hr x (Hincl x Hx))) as [ls [Hls _]].
  set (f := fun p => av <-? get_available_actions_sim cfg e p ;;
                     b <-? py_in (acts p) av ;; inr (p, b)).
  assert (Hf : forall p, f p = inl TypeError \/ exists y, f p = inr y).
  { intros p. subst f. cbv beta. unfold get_available_actions_sim.
    destruct (player_eqb p (active_player e)) eqn:Ep.
    - right. unfold player_eqb in Ep.
      destruct (player_eq_dec p (active_player e)) as [->|]; [|discriminate].
      unfold get_available_actions. rewrite Hl. cbn [rbind]. rewrite Hm. simpl.
      rewrite Hls. cbn [rbind]. destruct (acts (active_player e)); simpl; eauto.
    - left. rewrite Hm. reflexivity. }
  assert (Hq : exists q, q <> active_player e) by
    (destruct (active_player e); [exists PE|exists PN|exists PN|exists PN]; discriminate).
  destruct Hq as [q Hq].
  assert (Hfq : f q = inl TypeError).
  { destruct (Hf q) as [H|[y H]]; [exact H|]. subst f. cbv beta in H.
    unfold get_available_actions_sim in H. rewrite player_eqb_neq, Hm in H by exact Hq.
    discriminate. }
  destruct (mapR_first_error f players q (fun p _ => Hf p) ltac:(destruct q; simpl; tauto) Hfq)
    as [x [Hx ->]].
  exact Hx.
Qed.

(** C10. In [BridgeSimultaneousActionsEnv] with [action_space_mode =
    'multi_binary'], every call to [step] raises a [TypeError] and leaves
    the state as it was (no card is played): [get_available_actions] is
    [None] for each seat that is not active, and [actions.get(player) in
    None] raises.  It holds whenever the active seat's cards are real cards
    and the led suit is a real suit or none, so that the active seat's own
    check does not raise first. *)
Theorem multi_binary_step_type_error (cfg : Cfg) (acts : player -> action) (r : nat) (e : Env) :
  action_space_mode cfg = AMMultiBinary ->
  (forall x, In x (hands e (active_player e)) -> 0 <= x < 52) ->
  (current_suit e = None \/ exists s, current_suit e = Some s /\ 0 <= s <= 3) ->
  step_sim cfg acts r e = (e, inl TypeError).
Proof.
  intros Hm Hr Hs.
  assert (Hsel : select_card_sim cfg e acts r = inl TypeError)
    by (unfold select_card_sim; rewrite (multi_binary_validity_fails cfg e acts Hm Hr Hs);
        reflexivity).
  unfold step_sim, game_controller_sim. unfold mbind at 1 3, mget at 1 2. cbv beta iota.
  unfold mbind at 1 3, lift at 1 2. rewrite Hsel. reflexivity.
Qed.

Definition cfg_mb_play : Cfg := mkCfg AMMultiBinary OMInteger RPlayCards.

Lemma multi_binary_step_type_error_witness :
  step_sim cfg_mb_play acts_bad_lead 0 ex_deal_env = (ex_deal_env, inl TypeError).
Proof.
  apply multi_binary_step_type_error.
  - reflexivity.
  - apply cards_in_range_check. vm_compute. reflexivity.
  - left. vm_compute. reflexivity.
Defined.

(** ** Properties of the CardList methods *)

Lemma list_remove_first pre c post :
  ~ In c pre -> list_remove (pre ++ c :: post) c = inr (pre ++ post).
Proof.
  induction pre as [|a pre IH]; simpl; intros Hn.
  - rewrite Z.eqb_refl. reflexivity.
  - destruct (Z.eqb_spec a c) as [->|Hac]; [exfalso; tauto|].
    rewrite IH by tauto. reflexivity.
Qed.

Lemma list_remove_missing l c : ~ In c l -> list_remove l c = inl ValueError.
Proof.
  induction l as [|a l IH]; simpl; intros Hn; [reflexivity|].
  destruct (Z.eqb_spec a c) as [->|Hac]; [exfalso; tauto|].
  rewrite IH by tauto. reflexivity.
Qed.

Lemma list_pop_last l x : list_pop (l ++ [x]) = inr (l, x).
Proof. unfold list_pop. rewrite rev_app_distr. simpl. rewrite rev_involutive. reflexivity. Qed.

(** [remove_card] with an int drops the first occurrence of the card and
    raises [ValueError] for a card that is not in the list; with [None] it
    pops the last card and raises [IndexError] on an empty list; a one-hot
    list of a card removes that card, and an empty list raises
    [ValueError]. *)
Theorem remove_card_behaviour :
  (forall cl c, ~ In c cl -> remove_card cl (ActInt c) = inl ValueError) /\
  (forall pre c post, ~ In c pre ->
     remove_card (pre ++ c :: post) (ActInt c) = inr (pre ++ post, c)) /\
  (forall cl x, remove_card (cl ++ [x]) ActNone = inr (cl, x)) /\
  remove_card [] ActNone = inl IndexError /\
  (forall cl c w, 0 <= c < 52 -> one_hot c = inr w ->
     remove_card cl (ActList w) = remove_card cl (ActInt c)) /\
  (forall cl, remove_card cl (ActList []) = inl ValueError).
Proof.
  split; [|split; [|split; [|split; [|split]]]].
  - intros cl c Hn. simpl. rewrite list_remove_missing by exact Hn. reflexivity.
  - intros pre c post Hn. simpl. rewrite list_remove_first by exact Hn. reflexivity.
  - intros cl x. apply list_pop_last.
  - reflexivity.
  - intros cl c w Hc Hw. destruct (one_hot_argmax c Hc) as [v [Hv Ha]].
    rewrite Hw in Hv. injection Hv as <-. simpl. rewrite Ha. cbn [rbind].
    rewrite Z2Nat.id by lia. reflexivity.
  - reflexivity.
Qed.

Lemma remove_card_behaviour_witness :
  remove_card [5; 9] (ActInt 7) = inl ValueError /\
  remove_card ([5] ++ 9 :: [12]) (ActInt 9) = inr ([5] ++ [12], 9) /\
  remove_card ([5] ++ [9]) ActNone = inr ([5], 9) /\
  remove_card [] ActNone = inl IndexError /\
  remove_card [5; 9] (ActList (repeat 0 9 ++ 1 :: repeat 0 42)) = remove_card [5; 9] (ActInt 9) /\
  remove_card [5; 9] (ActList []) = inl ValueError.
Proof.
  destruct remove_card_behaviour as [H1 [H2 [H3 [H4 [H5 H6]]]]].
  split; [apply H1; simpl; lia|]. split; [apply H2; simpl; lia|].
  split; [apply H3|]. split; [exact H4|]. split; [|apply H6].
  apply H5; [lia | vm_compute; reflexivity].
Defined.

Lemma filter_suit_perm (cl : list Z) :
  Permutation (filter (fun x => x mod 4 =? 0) cl ++ filter (fun x => x mod 4 =? 1) cl ++
               filter (fun x => x mod 4 =? 2) cl ++ filter (fun x => x mod 4 =? 3) cl) cl.
Proof.
  induction cl as [|x r IH]; simpl; [constructor|].
  assert (Hx : x mod 4 = 0 \/ x mod 4 = 1 \/ x mod 4 = 2 \/ x mod 4 = 3)
    by (pose proof (Z.mod_pos_bound x 4); lia).
  destruct Hx as [Hx|[Hx|[Hx|Hx]]]; rewrite Hx; simpl.
  - apply perm_skip, IH.
  - symmetry. apply Permutation_cons_app. symmetry. exact IH.
  - symmetry. rewrite app_assoc. apply Permutation_cons_app. rewrite <- app_assoc.
    symmetry. exact IH.
  - symmetry. rewrite (app_assoc (filter _ r) (filter _ r)), app_assoc.
    apply Permutation_cons_app. rewrite <- !app_assoc. symmetry. exact IH.
Qed.

(** [get_suit_cards] raises [AssertionError] for a suit outside 0..3; for
    a suit in 0..3 it returns exactly the cards of that suit, and the four
    suits together are a rearrangement of the whole list. *)
Theorem get_suit_cards_partition (cl : list Z) :
  (forall s, s < 0 \/ 3 < s -> get_suit_cards cl s = inl AssertionError) /\
  (forall s, 0 <= s <= 3 -> exists cs, get_suit_cards cl s = inr cs /\
     forall x, In x cs <-> In x cl /\ x mod 4 = s) /\
  (exists c0 c1 c2 c3, get_suit_cards cl 0 = inr c0 /\ get_suit_cards cl 1 = inr c1 /\
     get_suit_cards cl 2 = inr c2 /\ get_suit_cards cl 3 = inr c3 /\
     Permutation (c0 ++ c1 ++ c2 ++ c3) cl).
Proof.
  split; [|split].
  - intros s Hs. unfold get_suit_cards.
    replace ((0 <=? s) && (s <=? 3)) with false by (symmetry; apply andb_false_iff; lia).
    reflexivity.
  - intros s Hs. unfold get_suit_cards.
    replace ((0 <=? s) && (s <=? 3)) with true by (symmetry; apply andb_true_iff; lia).
    eexists. split; [reflexivity|]. intros x. rewrite filter_In, Z.eqb_eq. tauto.
  - do 4 eexists. split; [reflexivity|]. split; [reflexivity|]. split; [reflexivity|].
    split; [reflexivity|]. apply filter_suit_perm.
Qed.

Lemma get_suit_cards_partition_witness :
  get_suit_cards [0; 5; 10] 4 = inl AssertionError /\
  (exists cs, get_suit_cards [0; 5; 10] 1 = inr cs /\
     forall x, In x cs <-> In x [0; 5; 10] /\ x mod 4 = 1).
Proof.
  destruct (get_suit_cards_partition [0; 5; 10]) as [H1 [H2 _]].
  split; [apply H1; lia | apply H2; lia].
Defined.

Lemma nth_map_lt {A B} (f : A -> B) (l : list A) (n : nat) (d : B) (da : A) :
  (n < List.length l)%nat -> nth n (map f l) d = f (nth n l da).
Proof.
  intros Hn. rewrite (nth_indep _ d (f da)) by (rewrite length_map; exact Hn).
  apply map_nth.
Qed.

Lemma count_nonzero_indicator (l cl : list Z) :
  count_nonzero (map (fun card => if existsb (Z.eqb card) cl then 1 else 0) l) =
  Z.of_nat (List.length (filter (fun card => existsb (Z.eqb card) cl) l)).
Proof.
  unfold count_nonzero. f_equal.
  induction l as [|x r IH]; simpl; [reflexivity|].
  destruct (existsb (Z.eqb x) cl); simpl; rewrite IH; reflexivity.
Qed.

Lemma existsb_eqb_in (cl : list Z) (i : Z) : existsb (Z.eqb i) cl = true <-> In i cl.
Proof.
  rewrite existsb_exists. split.
  - intros [x [Hx Hix]]. apply Z.eqb_eq in Hix. subst. exact Hx.
  - intros Hi. exists i. split; [exact Hi | apply Z.eqb_refl].
Qed.

(** [get_cards_multi_binary] has 52 entries, entry [i] is 1 when card [i]
    is in the list and 0 otherwise; for a list of distinct cards in 0..51
    the number of ones is the number of cards, and the vector lies in the
    hand space [MultiBinaryLimited(52, 0, 13)] exactly when there are at
    most 13 cards. *)
Theorem cards_multi_binary_encoding (cl : list Z) :
  List.length (get_cards_multi_binary cl) = 52%nat /\
  (forall i, 0 <= i < 52 ->
     (nth (Z.to_nat i) (get_cards_multi_binary cl) 0 = 1 /\ In i cl) \/
     (nth (Z.to_nat i) (get_cards_multi_binary cl) 0 = 0 /\ ~ In i cl)) /\
  (NoDup cl -> (forall c, In c cl -> 0 <= c < 52) ->
     count_nonzero (get_cards_multi_binary cl) = Z.of_nat (List.length cl) /\
     multi_binary_limited_contains 0 13 (get_cards_multi_binary cl) =
       (Z.of_nat (List.length cl) <=? 13)).
Proof.
  unfold get_cards_multi_binary. change (map Z.of_nat (seq 0 52)) with (range 52).
  split; [|split].
  - rewrite length_map. reflexivity.
  - intros i Hi.
    unfold range. rewrite (nth_map_lt _ _ _ _ 0) by (rewrite length_map, length_seq; lia).
    rewrite (nth_map_lt _ _ _ _ 0%nat) by (rewrite length_seq; lia).
    rewrite seq_nth by lia. simpl. rewrite Z2Nat.id by lia.
    destruct (existsb (Z.eqb i) cl) eqn:He.
    + left. split; [reflexivity|]. apply existsb_eqb_in. exact He.
    + right. split; [reflexivity|]. rewrite <- existsb_eqb_in, He. discriminate.
  - intros Hd Hr.
    assert (Hc : count_nonzero (map (fun card => if existsb (Z.eqb card) cl then 1 else 0)
                                    (range 52)) = Z.of_nat (List.length cl)).
    { rewrite count_nonzero_indicator. f_equal. apply Permutation_length.
      apply NoDup_Permutation; [apply NoDup_filter, range_NoDup | exact Hd|].
      intros x. rewrite filter_In, existsb_eqb_in. split; [tauto|].
      intros Hx. split; [apply in_range; simpl; apply Hr; exact Hx | exact Hx]. }
    split; [exact Hc|]. unfold multi_binary_limited_contains. rewrite Hc.
    replace (forallb _ _) with true.
    + simpl. replace (0 <=? Z.of_nat (List.length cl)) with true by (symmetry; apply Z.leb_le; lia).
      reflexivity.
    + symmetry. apply forallb_forall. intros z Hz. apply in_map_iff in Hz as [c [<- _]].
      destruct (existsb _ _); reflexivity.
Qed.

Lemma cards_multi_binary_encoding_witness :
  count_nonzero (get_cards_multi_binary [3; 17; 40]) = 3 /\
  multi_binary_limited_contains 0 13 (get_cards_multi_binary [3; 17; 40]) = (3 <=? 13).
Proof.
  destruct (cards_multi_binary_encoding [3; 17; 40]) as [_ [_ H]].
  apply H.
  - repeat constructor; simpl; lia.
  - apply cards_in_range_check. reflexivity.
Defined.

(** ** Sorting, encodings and seats *)

Lemma insert_by_hd (R : Z -> Z -> Prop) (k : Z -> Z) (x y : Z) (l : list Z) :
  R y x -> HdRel R y l -> HdRel R y (insert_by k x l).
Proof.
  intros Hyx Hl. destruct l as [|z l]; simpl; [constructor; exact Hyx|].
  destruct (k x <=? k z); constructor; [exact Hyx|]. inversion Hl; assumption.
Qed.

Lemma insert_by_sorted (k : Z -> Z) (x : Z) (l : list Z) :
  Sorted (fun a b => k a <= k b) l -> Sorted (fun a b => k a <= k b) (insert_by k x l).
Proof.
  induction 1 as [|a l Hl IH Ha]; simpl; [repeat constructor|].
  destruct (k x <=? k a) eqn:E.
  - apply Z.leb_le in E. constructor; [constructor; assumption | constructor; exact E].
  - apply Z.leb_gt in E. constructor; [exact IH|]. apply insert_by_hd; [lia | exact Ha].
Qed.

Lemma sort_by_sorted (k : Z -> Z) (l : list Z) : Sorted (fun a b => k a <= k b) (sort_by k l).
Proof. induction l as [|x r IH]; simpl; [constructor | apply insert_by_sorted, IH]. Qed.

Lemma insert_by_suit_sorted (x : Z) (m : list Z) :
  Sorted card_order m -> (forall y, In y m -> x <= y) ->
  Sorted card_order (insert_by (fun c => c mod 4) x m).
Proof.
  induction m as [|y m IH]; intros Hs Hx; simpl; [repeat constructor|].
  inversion Hs as [|? ? Hm Hy]; subst.
  destruct (x mod 4 <=? y mod 4) eqn:E.
  - apply Z.leb_le in E. constructor; [exact Hs|]. constructor. unfold card_order.
    specialize (Hx y (or_introl eq_refl)). lia.
  - apply Z.leb_gt in E. constructor.
    + apply IH; [exact Hm | intros z Hz; apply Hx; right; exact Hz].
    + apply insert_by_hd; [unfold card_order; lia | exact Hy].
Qed.

Lemma suit_pass_sorted (l : list Z) :
  Sorted (fun a b => a <= b) l -> Sorted card_order (sort_by (fun c => c mod 4) l).
Proof.
  induction 1 as [|x r Hr IH Hx]; simpl; [constructor|].
  apply insert_by_suit_sorted; [exact IH|].
  assert (Hall : Forall (fun y => x <= y) r).
  { apply (Sorted_extends (R := fun a b => a <= b)); [intros a b c; lia | constructor; assumption]. }
  intros y Hy. rewrite Forall_forall in Hall. apply Hall.
  apply (Permutation_in _ (sort_by_perm (fun c => c mod 4) r)), Hy.
Qed.

Lemma sort_cards_ok (l : list Z) :
  Sorted card_order (sort_cards l) /\ Permutation (sort_cards l) l.
Proof.
  split.
  - unfold sort_cards. apply suit_pass_sorted. exact (sort_by_sorted (fun x => x) l).
  - unfold sort_cards. eapply perm_trans; apply sort_by_perm.
Qed.

(** [sort_cards] orders the cards by suit and, within a suit, by value,
    and keeps the same cards. *)
Theorem sort_cards_sorted (l : list Z) :
  Sorted card_order (sort_cards l) /\ Permutation (sort_cards l) l.
Proof. exact (sort_cards_ok l). Qed.

Lemma mapR_one_hot_decode (l : list Z) (ls : list (list Z)) :
  (forall x, In x l -> 0 <= x < 52) -> mapR one_hot l = inr ls ->
  mapR convert_multi_binary_to_integer ls = inr l.
Proof.
  revert ls. induction l as [|x l IH]; intros ls Hr H; simpl in H.
  - injection H as <-. reflexivity.
  - destruct (one_hot x) as [|y] eqn:Hx; [discriminate|]. cbn [rbind] in H.
    destruct (mapR one_hot l) as [|ys] eqn:Hl; [discriminate|]. cbn [rbind] in H.
    injection H as <-. destruct (one_hot_argmax x (Hr x (or_introl eq_refl))) as [v [Hv Ha]].
    rewrite Hx in Hv. injection Hv as <-. simpl.
    rewrite (IH ys (fun c Hc => Hr c (or_intror Hc)) eq_refl).
    unfold convert_multi_binary_to_integer. rewrite Ha. cbn [rbind].
    rewrite Z2Nat.id by (specialize (Hr x (or_introl eq_refl)); lia). reflexivity.
Qed.

(** In "multi_binary" action mode [get_available_actions] returns one
    one-hot list per card that the "integer" mode returns, in the same
    order, and [convert_multi_binary_to_integer] decodes them back to those
    cards; it holds when the seat's cards lie in 0..51 and the led suit is
    a real suit or none. *)
Theorem available_actions_multi_binary_decode (cfg : Cfg) (e : Env) (p : player) :
  action_space_mode cfg = AMMultiBinary ->
  (forall c, In c (hands e p) -> 0 <= c < 52) ->
  (current_suit e = None \/ exists s, current_suit e = Some s /\ 0 <= s <= 3) ->
  exists l ls,
    get_available_actions (mkCfg AMInteger (observation_space_mode cfg) (reward_mode cfg)) e p
      = inr (AvInts l) /\
    get_available_actions cfg e p = inr (AvLists ls) /\
    mapR convert_multi_binary_to_integer ls = inr l.
Proof.
  intros Hm Hr Hs. destruct (legal_cards_inr e p Hs) as [l Hl].
  assert (Hlr : forall x, In x l -> 0 <= x < 52)
    by (intros x Hx; apply Hr, (legal_cards_incl e p l Hl), Hx).
  destruct (mapR_one_hot_ok l Hlr) as [ls [Hls _]].
  exists l, ls. unfold get_available_actions. rewrite Hl. cbn [rbind]. rewrite Hm.
  split; [reflexivity|]. split.
  - simpl. rewrite Hls. reflexivity.
  - apply mapR_one_hot_decode; assumption.
Qed.

Lemma available_actions_multi_binary_decode_witness :
  exists l ls,
    get_available_actions (mkCfg AMInteger OMInteger RPlayCards) ex_deal_env PE = inr (AvInts l) /\
    get_available_actions cfg_mb_play ex_deal_env PE = inr (AvLists ls) /\
    mapR convert_multi_binary_to_integer ls = inr l.
Proof.
  apply (available_actions_multi_binary_decode cfg_mb_play ex_deal_env PE).
  - reflexivity.
  - apply cards_in_range_check. vm_compute. reflexivity.
  - left. reflexivity.
Defined.

Lemma filter_eqb_count (l : list Z) (z : Z) :
  List.length (filter (fun i => i =? z) l) = count_occ Z.eq_dec l z.
Proof.
  induction l as [|a l IH]; simpl; [reflexivity|].
  destruct (Z.eq_dec a z) as [->|Ha]; [rewrite Z.eqb_refl; simpl; rewrite IH; reflexivity|].
  replace (a =? z) with false by (symmetry; apply Z.eqb_neq; exact Ha). exact IH.
Qed.

Lemma in_range_iff (n : nat) (c : Z) : In c (range n) <-> 0 <= c < Z.of_nat n.
Proof.
  split; [|apply in_range]. unfold range. intros Hc.
  apply in_map_iff in Hc as [m [<- Hm]]. apply in_seq in Hm. lia.
Qed.

Lemma one_hot_opt_count (n : nat) (x : option Z) :
  forallb (fun z => (z =? 0) || (z =? 1)) (one_hot_opt n x) = true /\
  count_nonzero (one_hot_opt n x) =
    match x with Some z => if (0 <=? z) && (z <? Z.of_nat n) then 1 else 0 | None => 0 end.
Proof.
  unfold one_hot_opt. split.
  - apply forallb_forall. intros z Hz. apply in_map_iff in Hz as [i [<- _]].
    destruct x as [z|]; [destruct (i =? z)|]; reflexivity.
  - unfold count_nonzero. destruct x as [z|].
    + assert (Hf : forall l : list Z, filter (fun v => negb (v =? 0))
                    (map (fun i => if i =? z then 1 else 0) l) = map (fun _ => 1) (filter (fun i => i =? z) l)).
      { induction l as [|a l IH]; simpl; [reflexivity|]. destruct (a =? z); simpl; rewrite IH; reflexivity. }
      rewrite Hf, length_map, filter_eqb_count.
      destruct ((0 <=? z) && (z <? Z.of_nat n)) eqn:E.
      * apply andb_true_iff in E as [E1 E2]. apply Z.leb_le in E1. apply Z.ltb_lt in E2.
        assert (Hc : count_occ Z.eq_dec (range n) z = 1%nat)
          by (apply (NoDup_count_occ' Z.eq_dec); [apply range_NoDup | apply in_range; lia]).
        rewrite Hc. reflexivity.
      * rewrite (proj1 (count_occ_not_In Z.eq_dec (range n) z)); [reflexivity|].
        rewrite in_range_iff. intros Hz. apply andb_false_iff in E as [E|E];
          [apply Z.leb_gt in E | apply Z.ltb_ge in E]; lia.
    + assert (Hf : forall l : list Z, filter (fun v => negb (v =? 0)) (map (fun _ => 0) l) = []).
      { induction l as [|a l IH]; simpl; [reflexivity | exact IH]. }
      rewrite Hf. reflexivity.
Qed.

Lemma one_hot_opt_within (n : nat) (x : option Z) :
  multi_binary_limited_contains 0 1 (one_hot_opt n x) = true.
Proof.
  unfold multi_binary_limited_contains. destruct (one_hot_opt_count n x) as [H1 H2].
  rewrite H1, H2. destruct x as [z|]; [destruct (_ && _)|]; reflexivity.
Qed.

Lemma one_hot_opt_exact (n : nat) (x : option Z) :
  multi_binary_limited_contains 1 1 (one_hot_opt n x) =
    match x with Some z => (0 <=? z) && (z <? Z.of_nat n) | None => false end.
Proof.
  unfold multi_binary_limited_contains. destruct (one_hot_opt_count n x) as [H1 H2].
  rewrite H1, H2. destruct x as [z|]; [destruct (_ && _)|]; reflexivity.
Qed.

(** In "multi_binary" observation mode the "contract_value" entry of an
    observation is a one-hot list over [range(7)], and it lies in its
    declared space [MultiBinaryLimited(7, 1, 1)] only for a contract value
    in 0..6: the value 7 gives a list of zeros.  The "current_suit" and
    "trump" entries always lie in [MultiBinaryLimited(4, 0, 1)] and
    "won_tricks" in [MultiBinaryLimited(13, 0, 1)]. *)
Theorem observation_multi_binary_spaces (cfg : Cfg) (e : Env) (p : player) :
  observation_space_mode cfg = OMMultiBinary ->
  let obs := get_player_observation cfg e p in
  py_getitem obs "contract_value" = Some (py_ints (one_hot_opt 7 (Some (contract_value e)))) /\
  multi_binary_limited_contains 1 1 (one_hot_opt 7 (Some (contract_value e))) =
    (0 <=? contract_value e) && (contract_value e <=? 6) /\
  py_getitem obs "current_suit" = Some (py_ints (one_hot_opt 4 (current_suit e))) /\
  multi_binary_limited_contains 0 1 (one_hot_opt 4 (current_suit e)) = true /\
  py_getitem obs "trump" = Some (py_ints (one_hot_opt 4 (trump e))) /\
  multi_binary_limited_contains 0 1 (one_hot_opt 4 (trump e)) = true /\
  py_getitem obs "won_tricks" = Some (py_ints (one_hot_opt 13 (Some (won_tricks e p)))) /\
  multi_binary_limited_contains 0 1 (one_hot_opt 13 (Some (won_tricks e p))) = true.
Proof.
  intros Hm obs. unfold obs, get_player_observation. rewrite Hm.
  rewrite !one_hot_opt_within, one_hot_opt_exact.
  repeat split. cbn iota. destruct (0 <=? contract_value e); [|reflexivity].
  simpl. destruct (Z.ltb_spec (contract_value e) 7), (Z.leb_spec (contract_value e) 6);
    reflexivity || lia.
Qed.

Definition cfg_mb_obs : Cfg := mkCfg AMInteger OMMultiBinary RPlayCards.

Lemma observation_multi_binary_spaces_witness :
  let e := fst (reset_none cfg_mb_obs PN None 7 (range 52) ex_deal_env) in
  py_getitem (get_player_observation cfg_mb_obs e PE) "contract_value" =
    Some (py_ints (one_hot_opt 7 (Some 7))) /\
  multi_binary_limited_contains 1 1 (one_hot_opt 7 (Some (contract_value e))) = false.
Proof.
  intros e.
  destruct (observation_multi_binary_spaces cfg_mb_obs e PE eq_refl) as [H1 [H2 _]].
  split; [exact H1 | rewrite H2; reflexivity].
Defined.

Ltac seat_perm :=
  apply NoDup_Permutation;
  [repeat constructor; simpl; intuition discriminate
  |repeat constructor; simpl; intuition discriminate
  |intros []; simpl; tauto].

(** [_set_players_roles] accepts exactly the seat names "N", "E", "S" and
    "W" and raises for any other string; for a declarer [d] the four roles
    are four different seats, [defender_1] sits after the declarer,
    [dummy] is the declarer's partner and [defender_2] the partner of
    [defender_1]. *)
Theorem players_roles_seats :
  (forall s p, parse_player s = Some p <-> s = player_name p) /\
  (forall s, (forall p, s <> player_name p) -> set_players_roles s = inl Exception_) /\
  (forall d, let ro := set_players_roles_of d in
     set_players_roles (player_name d) = inr ro /\
     Permutation [declarer ro; defender_1 ro; dummy ro; defender_2 ro] players /\
     declarer ro = d /\ defender_1 ro = get_next_player d /\
     dummy ro = partner d /\ defender_2 ro = partner (defender_1 ro)).
Proof.
  assert (Hp : forall s p, parse_player s = Some p <-> s = player_name p).
  { intros s p. split.
    - unfold parse_player. intros H. apply find_some in H as [_ H].
      apply String.eqb_eq in H. symmetry. exact H.
    - intros ->. destruct p; reflexivity. }
  split; [exact Hp|]. split.
  - intros s Hs. unfold set_players_roles. destruct (parse_player s) as [p|] eqn:E; [|reflexivity].
    exfalso. apply (Hs p), Hp, E.
  - intros d ro. unfold set_players_roles. rewrite (proj2 (Hp _ d) eq_refl).
    split; [reflexivity|]. split; [destruct d; simpl; seat_perm|].
    split; [reflexivity|]. split; [reflexivity|]. split; reflexivity.
Qed.

Lemma players_roles_seats_witness :
  set_players_roles "X" = inl Exception_ /\ parse_player "S" = Some PS.
Proof.
  destruct players_roles_seats as [H1 [H2 _]]. split.
  - apply H2. intros [] H; discriminate H.
  - apply H1. reflexivity.
Defined.

Lemma in_firstn_in {A} (n : nat) (l : list A) (x : A) : In x (firstn n l) -> In x l.
Proof. intros H. rewrite <- (firstn_skipn n l). apply in_or_app. left. exact H. Qed.

Lemma in_skipn_in {A} (n : nat) (l : list A) (x : A) : In x (skipn n l) -> In x l.
Proof. intros H. rewrite <- (firstn_skipn n l). apply in_or_app. right. exact H. Qed.

(** [reset()] without [initial_state], after a shuffle of [range(52)],
    gives every seat 13 different cards in 0..51, sorted by suit and then
    by value, and makes [defender_1], the seat after the declarer, the
    active player. *)
Theorem reset_none_deal (cfg : Cfg) (decl : player) (tr : option Z) (cv : Z)
        (deck : list Z) (e0 : Env) :
  standard_deck deck ->
  let e := fst (reset_none cfg decl tr cv deck e0) in
  (forall p, List.length (hands e p) = 13%nat /\ NoDup (hands e p) /\
             Sorted card_order (hands e p) /\ (forall c, In c (hands e p) -> 0 <= c < 52)) /\
  active_player e = get_next_player decl.
Proof.
  intros Hd e. split; [|reflexivity]. intros p.
  change (hands e p) with (sort_cards ([] ++ firstn 13 (skipn (13 * player_index p) deck))).
  rewrite app_nil_l. set (l := firstn 13 (skipn (13 * player_index p) deck)).
  destruct (sort_cards_ok l) as [Hs Hperm].
  assert (Hlen : List.length deck = 52%nat)
    by (rewrite (Permutation_length Hd); unfold range; rewrite length_map, length_seq; reflexivity).
  assert (Hnd : NoDup deck) by (apply (Permutation_NoDup (Permutation_sym Hd)), range_NoDup).
  split; [|split; [|split]].
  - rewrite (Permutation_length Hperm). unfold l. rewrite length_firstn, length_skipn, Hlen.
    destruct p; reflexivity.
  - apply (Permutation_NoDup (Permutation_sym Hperm)). unfold l.
    rewrite <- (firstn_skipn (13 * player_index p) deck) in Hnd.
    apply NoDup_app_remove_l in Hnd.
    rewrite <- (firstn_skipn 13 (skipn (13 * player_index p) deck)) in Hnd.
    apply NoDup_app_remove_r in Hnd. exact Hnd.
  - exact Hs.
  - intros c Hc. apply (Permutation_in _ Hperm) in Hc. unfold l in Hc.
    apply in_firstn_in, in_skipn_in in Hc. apply (Permutation_in _ Hd) in Hc.
    apply in_range_iff in Hc. exact Hc.
Qed.

Lemma reset_none_deal_witness :
  let e := fst (reset_none cfg_int_play PN None 3 (range 52) ex_deal_env) in
  List.length (hands e PS) = 13%nat /\ Sorted card_order (hands e PS) /\ active_player e = PE.
Proof.
  intros e.
  destruct (reset_none_deal cfg_int_play PN None 3 (range 52) ex_deal_env (Permutation_refl _))
    as [Hh Ha].
  destruct (Hh PS) as [H1 [_ [H3 _]]]. split; [exact H1|]. split; [exact H3 | exact Ha].
Defined.

(** ** Relations that every outcome of a computation keeps *)

Section Preserve.
Variable R : Env -> Env -> Prop.
Hypothesis R_refl : forall e, R e e.
Hypothesis R_trans : forall e1 e2 e3, R e1 e2 -> R e2 e3 -> R e1 e3.

(** [m] relates its start state to the state it ends in, whether it
    returns or raises. *)
Definition pres {A} (m : M A) : Prop := forall e, R e (fst (m e)).

Lemma pres_bind {A B} (m : M A) (k : A -> M B) :
  pres m -> (forall a, pres (k a)) -> pres (mbind m k).
Proof.
  intros Hm Hk e. specialize (Hm e). unfold mbind.
  destruct (m e) as [e1 [x|a]]; cbn in *; [exact Hm|].
  eapply R_trans; [exact Hm | apply Hk].
Qed.

Lemma pres_mret {A} (a : A) : pres (mret a).
Proof. intros e. apply R_refl. Qed.

Lemma pres_lift {A} (r : res A) : pres (lift r).
Proof. intros e. apply R_refl. Qed.

Lemma pres_mget : pres mget.
Proof. intros e. apply R_refl. Qed.

Lemma pres_modify (f : Env -> Env) : (forall e, R e (f e)) -> pres (modify f).
Proof. intros Hf e. apply Hf. Qed.

End Preserve.

Ltac pres_solve Rr Rt pre tac :=
  repeat first
    [ pre
    | progress cbv beta iota zeta
    | match goal with
      | |- pres _ (mret _) => apply (pres_mret _ Rr)
      | |- pres _ (lift _) => apply (pres_lift _ Rr)
      | |- pres _ mget => apply (pres_mget _ Rr)
      | |- pres _ (modify _) => apply pres_modify; tac
      | |- pres _ (mbind _ _) => apply (pres_bind _ Rt); [|intro]
      | |- pres _ (match ?x with _ => _ end) => destruct x
      end ].

Ltac unfold_step :=
  unfold step, step_sim, game_controller, game_controller_sim, play_card, advance,
         clear_table, clear_go, players, clear_one.

(** The contract attributes. *)
Definition contract_kept (e e' : Env) : Prop :=
  trump e' = trump e /\ contract_value e' = contract_value e /\
  players_roles e' = players_roles e.

Lemma contract_kept_refl e : contract_kept e e.
Proof. repeat split. Qed.

Lemma contract_kept_trans e1 e2 e3 :
  contract_kept e1 e2 -> contract_kept e2 e3 -> contract_kept e1 e3.
Proof. intros (A1 & B1 & C1) (A2 & B2 & C2). repeat split; congruence. Qed.

Lemma step_contract_kept cfg act r : pres contract_kept (step cfg act r).
Proof.
  unfold_step.
  pres_solve contract_kept_refl contract_kept_trans fail
             ltac:(intros ?; unfold contract_kept; repeat split).
Qed.

Lemma step_sim_contract_kept cfg acts r : pres contract_kept (step_sim cfg acts r).
Proof.
  unfold_step.
  pres_solve contract_kept_refl contract_kept_trans fail
             ltac:(intros ?; unfold contract_kept; repeat split).
Qed.

(** No call to [step] in either environment changes the trump, the
    contract value or the players' roles, whether it returns or raises. *)
Theorem step_keeps_contract (cfg : Cfg) (r : nat) (e : Env) :
  (forall act, let e' := fst (step cfg act r e) in
     trump e' = trump e /\ contract_value e' = contract_value e /\
     players_roles e' = players_roles e) /\
  (forall acts, let e' := fst (step_sim cfg acts r e) in
     trump e' = trump e /\ contract_value e' = contract_value e /\
     players_roles e' = players_roles e).
Proof.
  split; [intros act; apply step_contract_kept | intros acts; apply step_sim_contract_kept].
Qed.

(** The won-tricks counters agree between partners and the two sides add
    up to the number of played tricks. *)
Definition won_inv (e : Env) : Prop :=
  (forall p, won_tricks e (partner p) = won_tricks e p) /\
  won_tricks e PN + won_tricks e PE = tricks_played e.

Definition won_kept (e e' : Env) : Prop := won_inv e -> won_inv e'.

Lemma won_kept_refl e : won_kept e e.
Proof. intros H. exact H. Qed.

Lemma won_kept_trans e1 e2 e3 : won_kept e1 e2 -> won_kept e2 e3 -> won_kept e1 e3.
Proof. intros H1 H2 H. apply H2, H1, H. Qed.

Lemma won_block (w : player) :
  pres won_kept
    (modify (fun e' => set_tricks_played (tricks_played e' + 1) e') >>>
     modify (fun e' => set_won (upd (won_tricks e') w (won_tricks e' w + 1)) e') >>>
     modify (fun e' => set_won (upd (won_tricks e') (partner w)
                                    (won_tricks e' (partner w) + 1)) e') >>>
     mret (Some w, w)).
Proof.
  intros e [Hp Hs]. pose proof (Hp PN) as HN. pose proof (Hp PE) as HE.
  cbn in HN, HE. split.
  - intros p. destruct w, p; cbn; lia.
  - destruct w; cbn; lia.
Qed.

Lemma step_won_kept cfg act r : pres won_kept (step cfg act r).
Proof.
  unfold_step.
  pres_solve won_kept_refl won_kept_trans ltac:(apply won_block) ltac:(intros ? H; exact H).
Qed.

Lemma step_sim_won_kept cfg acts r : pres won_kept (step_sim cfg acts r).
Proof.
  unfold_step.
  pres_solve won_kept_refl won_kept_trans ltac:(apply won_block) ltac:(intros ? H; exact H).
Qed.

(** In every state the environments reach from a [reset()], after any
    sequence of [step] calls (returning or raising), partners have won the
    same number of tricks and the two sides' counts add up to
    [tricks_played]. *)
Theorem won_tricks_invariant (cfg : Cfg) (e : Env) :
  reachable cfg e ->
  (forall p, won_tricks e (partner p) = won_tricks e p) /\
  won_tricks e PN + won_tricks e PE = tricks_played e.
Proof.
  induction 1 as [e0 decl tr cv deck _|e act r _ IH|e acts r _ IH].
  - split; [intros p; reflexivity | reflexivity].
  - apply (step_won_kept cfg act r e IH).
  - apply (step_sim_won_kept cfg acts r e IH).
Qed.

Lemma won_tricks_invariant_witness :
  let e := run_steps cfg_int_tricks ex_first_trick ex_deal_env in
  won_tricks e PS = won_tricks e PN /\ won_tricks e PN + won_tricks e PE = tricks_played e.
Proof.
  intros e.
  assert (He : reachable cfg_int_tricks e).
  { unfold e, ex_first_trick, ex_deal_env. cbn [run_steps].
    repeat apply reach_step.
    change (reachable cfg_int_tricks
              (fst (reset_none cfg_int_tricks PN None 3 (range 52) ex_follow_env))).
    apply reach_reset. apply Permutation_refl. }
  destruct (won_tricks_invariant cfg_int_tricks e He) as [Hp Hs].
  split; [exact (Hp PN) | exact Hs].
Defined.

(** ** Turn order, trick completion and the errors of a step *)

Lemma clear_table_fields e e' u :
  clear_table e = (e', inr u) -> n_cards_on_table e' = 0 /\ current_suit e' = None.
Proof.
  unfold clear_table. intros H. apply bind_inv in H as [e1 [a [_ H2]]].
  cbn in H2. injection H2 as <- _. split; reflexivity.
Qed.

Lemma advance_fields card e e2 wn :
  advance card e = (e2, inr wn) ->
  (n_cards_on_table e < 4 -> n_cards_on_table e2 = n_cards_on_table e /\
     current_suit e2 = match current_suit e with None => Some (card mod 4) | s => s end) /\
  (4 <= n_cards_on_table e -> n_cards_on_table e2 = 0 /\ current_suit e2 = None).
Proof.
  unfold advance. rewrite bind_get. destruct (Z.ltb_spec (n_cards_on_table e) 4) as [Hn|Hn].
  - destruct (current_suit e) eqn:Ec; cbn; intros [= <- <-]; split; intros; try lia;
      split; cbn; auto.
  - destruct (get_trick_winner e) as [x|w]; [rewrite bind_lift_inl; discriminate|].
    rewrite bind_lift_inr. intros H. apply bind_inv in H as [ec [u [Hc H]]].
    apply clear_table_fields in Hc. cbn in H. injection H as <- <-. cbn.
    split; [intros; lia | intros _; exact Hc].
Qed.

Lemma won_upd_cases (W : player -> Z) (w q : player) :
  let W' := upd (upd W w (W w + 1)) (partner w) (upd W w (W w + 1) (partner w) + 1) in
  W' w = W w + 1 /\ W' (partner w) = W (partner w) + 1 /\
  (q <> w -> q <> partner w -> W' q = W q).
Proof.
  intros W'. unfold W'. split; [|split]; [destruct w; reflexivity | destruct w; reflexivity|].
  intros H1 H2. destruct w, q; cbn in *; congruence.
Qed.

(** The state after the shared tail of both game controllers. *)
Definition turn_result (e e' : Env) (card : Z) (tw : option player) : Prop :=
  (n_cards_on_table e + 1 < 4 /\ tw = None /\
   active_player e' = get_next_player (active_player e) /\
   n_cards_on_table e' = n_cards_on_table e + 1 /\
   current_suit e' = match current_suit e with None => Some (card mod 4) | s => s end /\
   tricks_played e' = tricks_played e /\ won_tricks e' = won_tricks e) \/
  (4 <= n_cards_on_table e + 1 /\ exists w, tw = Some w /\
   active_player e' = w /\ n_cards_on_table e' = 0 /\ current_suit e' = None /\
   tricks_played e' = tricks_played e + 1 /\
   won_tricks e' w = won_tricks e w + 1 /\
   won_tricks e' (partner w) = won_tricks e (partner w) + 1 /\
   (forall q, q <> w -> q <> partner w -> won_tricks e' q = won_tricks e q)).

Lemma turn_result_tail e h' card e2 wn rw :
  advance card (fst (play_card (active_player e) h' card e)) = (e2, inr wn) ->
  turn_result e (set_active (snd wn) (set_rewards rw e2)) card (fst wn) /\
  (forall w, fst wn = Some w ->
     get_trick_winner (fst (play_card (active_player e) h' card e)) = inr w).
Proof.
  intros Ha. pose proof (advance_fields _ _ _ _ Ha) as [Fs Fl].
  apply advance_inv in Ha as (_ & _ & _ & _ & Hw).
  unfold turn_result. cbn in Fs, Fl, Hw |- *.
  destruct Hw as [(Hn & -> & Ht & Hwon)|(Hn & w & Hw & -> & Ht & Hwon)].
  - destruct (Fs Hn) as [Fn Fc]. split; [|discriminate].
    left. repeat split; try assumption; lia.
  - destruct (Fl Hn) as [Fn Fc]. split; [|intros w' [= <-]; exact Hw].
    right. split; [lia|]. exists w. rewrite Hwon.
    destruct (won_upd_cases (won_tricks e) w w) as [W1 [W2 _]].
    repeat split; try assumption.
    intros q Hq1 Hq2. exact (proj2 (proj2 (won_upd_cases (won_tricks e) w q)) Hq1 Hq2).
Qed.

(** A [step] that returns, in either environment, plays the selected card
    and then either passes the turn to the next seat (fewer than four
    cards on the table: the count goes up by one and the first card of the
    trick sets the led suit) or completes the trick: the winner of the
    trick becomes the active player, the table count and the led suit are
    reset, [tricks_played] goes up by one, and so do the won tricks of the
    winner and of the winner's partner, and of no other seat. *)
Theorem step_turn_order (cfg : Cfg) (r : nat) (e e' : Env) (v : pyval) :
  (forall act, step cfg act r e = (e', inr v) ->
     exists h' card valid tw, select_card cfg e act r = inr (h', card, valid) /\
       turn_result e e' card tw /\
       (forall w, tw = Some w ->
          get_trick_winner (fst (play_card (active_player e) h' card e)) = inr w)) /\
  (forall acts, step_sim cfg acts r e = (e', inr v) ->
     exists h' card valid tw, select_card_sim cfg e acts r = inr (h', card, valid) /\
       turn_result e e' card tw /\
       (forall w, tw = Some w ->
          get_trick_winner (fst (play_card (active_player e) h' card e)) = inr w)).
Proof.
  split.
  - intros act H. apply step_inv in H as [H _].
    apply game_controller_inv in H as (h' & card & valid & wn & e2 & rw & Hs & Ha & _ & ->).
    exists h', card, valid, (fst wn). split; [exact Hs|]. apply turn_result_tail. exact Ha.
  - intros acts H. apply step_sim_inv in H as [H _].
    apply game_controller_sim_inv in H as (h' & card & valid & wn & e2 & rw & Hs & Ha & _ & ->).
    exists h', card, valid, (fst wn). split; [exact Hs|]. apply turn_result_tail. exact Ha.
Qed.

Lemma step_turn_order_witness :
  let st := step cfg_int_tricks (ActInt 16) 0 ex_deal_env in
  exists h' card valid tw, select_card cfg_int_tricks ex_deal_env (ActInt 16) 0 = inr (h', card, valid) /\
    turn_result ex_deal_env (fst st) card tw /\
    (forall w, tw = Some w ->
       get_trick_winner (fst (play_card (active_player ex_deal_env) h' card ex_deal_env)) = inr w).
Proof.
  intros st.
  destruct (step_turn_order cfg_int_tricks 0 ex_deal_env (fst st) (out_val (snd st))) as [H _].
  apply (H (ActInt 16)). vm_compute. reflexivity.
Defined.

(** In [BridgeEnv] with reward mode "win" or "win_points", a step during
    the last trick ([tricks_played] is 12) that does not complete the trick
    raises [KeyError]: the lookahead of [_get_rewards] reads
    [self.state['hands'][None]].  The card has already been moved from
    the hand to the table when it raises. *)
Theorem last_trick_key_error (cfg : Cfg) (act : action) (r : nat) (e : Env)
        (h' : list Z) (card : Z) (valid : bool) :
  (reward_mode cfg = RWin \/ reward_mode cfg = RWinPoints) ->
  tricks_played e = 12 -> n_cards_on_table e + 1 < 4 ->
  select_card cfg e act r = inr (h', card, valid) ->
  exists e', step cfg act r e = (e', inl KeyError) /\
    hands e' (active_player e) = h' /\
    table e' (active_player e) = table e (active_player e) ++ [card].
Proof.
  intros Hm Ht Hn Hs.
  set (e1 := fst (play_card (active_player e) h' card e)).
  assert (Ha : exists e2, advance card e1 = (e2, inr (None, get_next_player (active_player e))) /\
                 tricks_played e2 = 12 /\ hands e2 = hands e1 /\ table e2 = table e1).
  { unfold advance. rewrite bind_get.
    replace (n_cards_on_table e1 <? 4) with true by (symmetry; apply Z.ltb_lt; cbn; lia).
    destruct (current_suit e1); eexists; (split; [reflexivity | split; [exact Ht | split; reflexivity]]). }
  destruct Ha as [e2 [Ha [Ht2 [Hh2 Htb2]]]].
  assert (Hr : get_rewards cfg e2 None valid = inl KeyError).
  { unfold get_rewards. destruct Hm as [Hm|Hm]; rewrite Hm, Ht2; reflexivity. }
  assert (Hg : game_controller cfg act r e = (e2, inl KeyError)).
  { unfold game_controller. rewrite bind_get. cbv zeta. rewrite Hs, bind_lift_inr. cbv beta iota.
    rewrite (bind_inr (play_card (active_player e) h' card) _ e e1 tt eq_refl).
    rewrite (bind_inr (advance card) _ e1 e2 _ Ha).
    rewrite bind_get. cbv beta. cbn [fst]. rewrite Hr, bind_lift_inl. reflexivity. }
  exists e2. split; [unfold step; rewrite (bind_inl _ _ e e2 KeyError Hg); reflexivity|].
  rewrite Hh2, Htb2. unfold e1. cbn. unfold upd. rewrite player_eqb_refl. split; reflexivity.
Qed.

(** South leads the last trick. *)
Definition ex_last_lead_env : Env :=
  mkEnv PS (fun p => match p with PS => [48] | PN => [5] | PE => [9] | PW => [13] end)
        empty_seats empty_played
        (fun p => match p with PN | PS => 8 | _ => 4 end)
        None None 3 (set_players_roles_of PS) 0 12 initial_rewards.

Lemma last_trick_key_error_witness :
  exists e', step cfg_int_points (ActInt 48) 0 ex_last_lead_env = (e', inl KeyError) /\
    hands e' PS = [] /\ table e' PS = [] ++ [48].
Proof.
  apply (last_trick_key_error cfg_int_points (ActInt 48) 0 ex_last_lead_env [] 48 true).
  - right. reflexivity.
  - reflexivity.
  - cbn. lia.
  - vm_compute. reflexivity.
Defined.

(** With a [reward_mode] other than the four supported ones, no [step] of
    either environment ever returns: [_get_rewards] raises. *)
Theorem unsupported_reward_mode_raises (cfg : Cfg) (s : string) :
  reward_mode cfg = ROther s ->
  forall act acts r e e' v, step cfg act r e <> (e', inr v) /\ step_sim cfg acts r e <> (e', inr v).
Proof.
  intros Hm act acts r e e' v. split; intros H.
  - apply step_rewards_inv in H as (h' & card & valid & wn & e2 & _ & Hr & _).
    unfold get_rewards in Hr. cbv zeta in Hr. rewrite Hm in Hr. discriminate Hr.
  - apply step_sim_rewards_inv in H as (h' & card & valid & wn & e2 & _ & Hr & _).
    unfold get_rewards_sim in Hr. cbv zeta in Hr. rewrite Hm in Hr. discriminate Hr.
Qed.

Definition cfg_other : Cfg := mkCfg AMInteger OMInteger (ROther "points").

Lemma unsupported_reward_mode_raises_witness :
  step cfg_other (ActInt 16) 0 ex_deal_env <> (ex_deal_env, inr PNone) /\
  step_sim cfg_other acts_bad_lead 0 ex_deal_env <> (ex_deal_env, inr PNone).
Proof. apply (unsupported_reward_mode_raises cfg_other "points" eq_refl). Defined.

Lemma mapR_vget (f : player -> res (player * bool)) (l : list player) (valid : vdict)
      (p : player) (b : bool) :
  mapR f l = inr valid -> (forall q x, f q = inr x -> fst x = q) ->
  In p l -> f p = inr (p, b) -> vget valid p = b.
Proof.
  revert valid. induction l as [|q l IH]; intros valid Hm Hk Hp Hfp; [destruct Hp|].
  simpl in Hm. destruct (f q) as [x|y] eqn:Hq; [discriminate|]. cbn [rbind] in Hm.
  destruct (mapR f l) as [x|ys] eqn:Hl; [discriminate|]. cbn [rbind] in Hm.
  injection Hm as <-. destruct y as [q' b'].
  pose proof (Hk q _ Hq) as Hq'. cbn in Hq'. subst q'. simpl.
  destruct (player_eq_dec q p) as [->|Hne].
  - rewrite player_eqb_refl. rewrite Hfp in Hq. injection Hq as ->. reflexivity.
  - rewrite player_eqb_neq by exact Hne. destruct Hp as [->|Hp]; [contradiction|].
    apply IH; auto.
Qed.

(** In [BridgeSimultaneousActionsEnv] with "integer" actions, the action
    of a seat that is not active is valid exactly when it is the int -1. *)
Theorem waiting_seat_validity (cfg : Cfg) (e : Env) (acts : player -> action) (valid : vdict)
        (p : player) :
  action_space_mode cfg = AMInteger ->
  actions_validity cfg e acts = inr valid ->
  p <> active_player e ->
  vget valid p = match acts p with ActInt z => z =? -1 | _ => false end.
Proof.
  intros Hm Hv Hp. unfold actions_validity in Hv.
  apply (mapR_vget _ players valid p _ Hv).
  - intros q x Hq. destruct (get_available_actions_sim cfg e q); [discriminate|].
    cbn [rbind] in Hq. destruct (py_in (acts q) a); [discriminate|].
    cbn [rbind] in Hq. injection Hq as <-. reflexivity.
  - destruct p; simpl; tauto.
  - unfold get_available_actions_sim. rewrite player_eqb_neq, Hm by exact Hp.
    cbn [rbind py_in]. destruct (acts p); cbn; try rewrite orb_false_r; reflexivity.
Qed.

(** East is active; North sends a card instead of -1. *)
Definition acts_wait (p : player) : action :=
  match p with PE => ActInt 16 | PN => ActInt 5 | _ => ActInt (-1) end.

Lemma waiting_seat_validity_witness :
  vget [(PN, false); (PE, true); (PS, true); (PW, true)] PN =
  match acts_wait PN with ActInt z => z =? -1 | _ => false end.
Proof.
  apply (waiting_seat_validity cfg_int_play ex_deal_env acts_wait).
  all: first [reflexivity | vm_compute; reflexivity | vm_compute; discriminate].
Defined.
